(** * Bezier curve editor (practice 3): evaluator, tessellator, quality control

    A shallow embedding of the curve core of the interactive Bezier demo:
    [bezier] (de Casteljau evaluation), the [update_bezier] closure of [main]
    (tessellation with cumulative arc length, followed by the two buffer
    uploads) and the event dispatch of the main loop that edits the control
    points and the quality value.

    Numbers are modelled as the program has them:
    - [float] is IEEE 754 binary32, taken from the specification of
      floating-point arithmetic of the standard library ([SpecFloat], with
      [prec = 24] and [emax = 128]); every operation is rounded to nearest,
      ties to even, and operations are not fused;
    - [size_t] is a 64-bit unsigned integer, a [Z] reduced modulo [2^64];
    - [std::hypot] belongs to the C library, not to the program: the model
      takes it as a parameter, and the theorems that depend on it state the
      property of it they use. *)

From Stdlib Require Import ZArith Lia Bool.
From Stdlib Require Import Floats.SpecFloat.
From stdpp Require Import base option list.

Local Open Scope Z_scope.

(** ** binary32 arithmetic *)

Module F32.

Abbreviation prec := 24 (only parsing).
Abbreviation emax := 128 (only parsing).

Definition float : Type := spec_float.

Definition add : float -> float -> float := SFadd prec emax.
Definition sub : float -> float -> float := SFsub prec emax.
Definition mul : float -> float -> float := SFmul prec emax.
Definition div : float -> float -> float := SFdiv prec emax.

(** Conversion of an integer to [float] ([static_cast<float>], and the
    implicit conversions of integer operands and literals). *)
Definition of_Z (n : Z) : float := binary_normalize prec emax n 0 false.

(** The literals [0] and [1.f]. *)
Definition zero : float := Eval cbv in of_Z 0.
Definition one : float := Eval cbv in of_Z 1.

Definition valid (f : float) : bool := valid_binary prec emax f.

(** Neither an infinity nor a NaN. *)
Definition is_finite (f : float) : bool :=
  match f with
  | S754_zero _ | S754_finite _ _ _ => true
  | S754_infinity _ | S754_nan => false
  end.

Definition is_nan (f : float) : bool :=
  match f with
  | S754_nan => true
  | _ => false
  end.

(** A well-formed finite number other than the negative zero: what the
    conversion of an integer produces. *)
Definition regular (f : float) : bool :=
  match f with
  | S754_zero s => negb s
  | S754_finite _ m e => bounded prec emax m e
  | S754_infinity _ | S754_nan => false
  end.

(** The sign bit is clear, or the value is a NaN. *)
Definition sign_clear (f : float) : bool :=
  match f with
  | S754_nan => true
  | S754_zero s | S754_infinity s | S754_finite s _ _ => negb s
  end.

(** [a <= b] of the language: false when an operand is a NaN. *)
Definition leb : float -> float -> bool := SFleb.

(** The result of rounding: a finite number, or an infinity when the
    exponent exceeds the range. *)
Definition finish (s : bool) (m : positive) (e : Z) : float :=
  if e <=? 104 then S754_finite s m e else S754_infinity s.

(** The second half of [binary_round_aux]: renormalisation after rounding. *)
Definition renormalize (s : bool) (m1 : Z) (e1 : Z) : float :=
  let '(mrs, e) := shr_fexp prec emax m1 e1 loc_Exact in
  match shr_m mrs with
  | Z0 => S754_zero s
  | Zpos m => if e <=? 128 - 24 then S754_finite s m e else S754_infinity s
  | Zneg _ => S754_nan
  end.

(** Rounding of a finite number to binary32 (the identity on well-formed
    numbers). *)
Definition narrow (f : float) : float :=
  match f with
  | S754_finite s m e => binary_round prec emax s m e
  | _ => f
  end.

(** A reference [hypot], correctly rounded: the special cases of Annex F of
    the C standard first; for two finite non-zero numbers the sum of the
    squares is exact, [sum * 2 ^ (2 * ez)], and its square root is taken
    with 32 extra bits and a sticky bit before rounding to binary32. It
    instantiates the parameter of the model in worked examples. *)
Definition hypot_ref (a b : float) : float :=
  match a, b with
  | S754_infinity _, _ | _, S754_infinity _ => S754_infinity false
  | S754_nan, _ | _, S754_nan => S754_nan
  | _, S754_zero _ => narrow (SFabs a)
  | S754_zero _, _ => narrow (SFabs b)
  | S754_finite _ ma ea, S754_finite _ mb eb =>
      let ez := Z.min ea eb in
      let sum := (Zpos ma * 2 ^ (ea - ez)) ^ 2 + (Zpos mb * 2 ^ (eb - ez)) ^ 2 in
      let '(r, rest) := Z.sqrtrem (sum * 4 ^ 32) in
      match 2 * r + (if rest =? 0 then 0 else 1) with
      | Zpos m => binary_round prec emax false m (ez - 33)
      | _ => S754_zero false
      end
  end.

End F32.

Abbreviation float := F32.float.

Declare Scope f32_scope.
Delimit Scope f32_scope with f32.
Infix "+" := F32.add : f32_scope.
Infix "-" := F32.sub : f32_scope.
Infix "*" := F32.mul : f32_scope.
Infix "/" := F32.div : f32_scope.

(** ** [size_t] *)

Definition size_max : Z := 2 ^ 64.
Definition wrap (n : Z) : Z := n mod size_max.

(** ** Data *)

Record vec2 : Type := Vec2 { x : float; y : float }.

(** [std::uint8_t color[4]] *)
Record rgba : Type := Rgba { red : Z; green : Z; blue : Z; alpha : Z }.

Record vertex : Type := Vertex { position : vec2; color : rgba }.

(** [struct bezier_vertex : public vertex { float dist; }]: the base
    sub-object, then the arc length. *)
Record bezier_vertex : Type := BezierVertex { base : vertex; dist : float }.

Definition white : rgba := Rgba 255 255 255 255.
Definition spline_color : rgba := Rgba 180 255 180 255.

(** ** Loops

    A counted [for] loop whose body may fail (an access out of the bounds of
    a vector is undefined behaviour, modelled as [None]). *)

Fixpoint for_each {A : Type} (body : nat -> A -> option A) (indices : list nat) (a : A) : option A :=
  match indices with
  | [] => Some a
  | i :: rest => a' ← body i a; for_each body rest a'
  end.

(** ** The evaluator *)

(** One interpolation, with the operands in the order of the source. *)
Definition lerp (t : float) (p q : vec2) : vec2 :=
  {| x := (x p * (F32.one - t) + x q * t)%f32;
     y := (y p * (F32.one - t) + y q * t)%f32 |}.

(** The body of the inner loop: [points[i]] is overwritten from [points[i]]
    and [points[i + 1]]. *)
Definition bezier_step (t : float) (i : nat) (points : list vec2) : option (list vec2) :=
  p ← points !! i;
  q ← points !! (i + 1)%nat;
  Some (<[i := lerp t p q]> points).

(** The inner loop of round [k]: [for (i = 0; i + k + 1 < n; ++i)]. *)
Definition bezier_round (t : float) (n k : nat) (points : list vec2) : option (list vec2) :=
  for_each (bezier_step t) (seq 0 (n - (k + 1))) points.

(** [vec2 bezier(std::vector<vertex> const & vertices, float t)] *)
Definition bezier (vertices : list vertex) (t : float) : option vec2 :=
  let n := length vertices in
  let points := map position vertices in
  points' ← for_each (bezier_round t n) (seq 0 (n - 1)) points;
  points' !! 0%nat.

(** The triangular scheme of de Casteljau, by level and index: level 0 holds
    the control points, and each point of a level interpolates two
    neighbours of the level below. *)
Fixpoint casteljau (t : float) (points : list vec2) (k i : nat) : option vec2 :=
  match k with
  | O => points !! i
  | S k' =>
      p ← casteljau t points k' i;
      q ← casteljau t points k' (i + 1)%nat;
      Some (lerp t p q)
  end.

(** The evaluation read off the design document: a round replaces every
    point but the last by [(1 - t) * p + t * q], where [q] is its successor;
    after [count - 1] rounds one point remains. *)
Definition lerp_spec (t : float) (p q : vec2) : vec2 :=
  {| x := ((F32.one - t) * x p + t * x q)%f32;
     y := ((F32.one - t) * y p + t * y q)%f32 |}.

Fixpoint casteljau_round (t : float) (points : list vec2) : list vec2 :=
  match points with
  | p :: (q :: _) as rest => lerp_spec t p q :: casteljau_round t rest
  | _ => []
  end.

Definition casteljau_rounds (t : float) (points : list vec2) : list vec2 :=
  Nat.iter (length points - 1) (casteljau_round t) points.

Definition de_casteljau (t : float) (points : list vec2) : option vec2 :=
  head (casteljau_rounds t points).

(** ** The program state touched by the curve core *)

Record state : Type := State {
  bezier_pts : list vertex;
  bezier_spline : list bezier_vertex;
  quality : Z;
  vbo_pts : list vertex;
  vbo_spline : list bezier_vertex;
  cout : list float
}.

(** [size_t quality = 4], empty vectors; both buffers are uploaded once
    before the main loop. *)
Definition initial_state : state :=
  State [] [] 4 [] [] [].

Inductive mouse_button : Type := ButtonLeft | ButtonRight | ButtonOther.
Inductive keycode : Type := KeyLeft | KeyRight | KeyOther.

Inductive event : Type :=
| MouseButtonDown (button : mouse_button) (mouse_x mouse_y : Z)
| KeyDown (sym : keycode)
| OtherEvent.

(** ** The tessellator *)

Section Tessellator.

Variable hypot : float -> float -> float.

(** [size_t N = bezier_pts.size() * quality] *)
Definition sample_count (pts : list vertex) (q : Z) : Z :=
  wrap (Z.of_nat (length pts) * q).

(** [static_cast<float>(i) / (N - 1)] *)
Definition sample_parameter (N : Z) (i : nat) : float :=
  (F32.of_Z (Z.of_nat i) / F32.of_Z (wrap (N - 1)))%f32.

(** The arc length of the next sample, from the spline built so far. *)
Definition next_dist (spline : list bezier_vertex) (part : vec2) : float :=
  match last spline with
  | None => F32.zero
  | Some back =>
      (hypot (x (position (base back)) - x part) (y (position (base back)) - y part)
       + dist back)%f32
  end.

(** The body of the tessellation loop; the accumulator is the spline and the
    text stream. *)
Definition spline_step (pts : list vertex) (N : Z) (i : nat)
  (acc : list bezier_vertex * list float) : option (list bezier_vertex * list float) :=
  part ← bezier pts (sample_parameter N i);
  let d := next_dist acc.1 part in
  Some (acc.1 ++ [BezierVertex (Vertex part spline_color) d], acc.2 ++ [d]).

Definition tessellate (pts : list vertex) (q : Z) (out : list float)
  : option (list bezier_vertex * list float) :=
  let N := sample_count pts q in
  for_each (spline_step pts N) (seq 0 (Z.to_nat N)) ([], out).

(** The closure [update_bezier]: rebuild the spline, then upload both
    vectors. *)
Definition update_bezier (s : state) : option state :=
  r ← tessellate (bezier_pts s) (quality s) (cout s);
  Some {| bezier_pts := bezier_pts s;
          bezier_spline := r.1;
          quality := quality s;
          vbo_pts := bezier_pts s;
          vbo_spline := r.1;
          cout := r.2 |}.

Definition with_pts (s : state) (pts : list vertex) : state :=
  State pts (bezier_spline s) (quality s) (vbo_pts s) (vbo_spline s) (cout s).

Definition with_quality (s : state) (q : Z) : state :=
  State (bezier_pts s) (bezier_spline s) q (vbo_pts s) (vbo_spline s) (cout s).

(** [std::vector::pop_back] on a non-empty vector. *)
Definition pop_back {A : Type} (l : list A) : list A := removelast l.

(** One event of the main loop's [switch]. *)
Definition handle_event (e : event) (s : state) : option state :=
  match e with
  | MouseButtonDown ButtonLeft mouse_x mouse_y =>
      update_bezier
        (with_pts s (bezier_pts s ++ [Vertex (Vec2 (F32.of_Z mouse_x) (F32.of_Z mouse_y)) white]))
  | MouseButtonDown ButtonRight _ _ =>
      match bezier_pts s with
      | [] => Some s
      | _ :: _ => update_bezier (with_pts s (pop_back (bezier_pts s)))
      end
  | MouseButtonDown ButtonOther _ _ => Some s
  | KeyDown KeyLeft =>
      if 1 <? quality s then update_bezier (with_quality s (wrap (quality s - 1)))
      else Some s
  | KeyDown KeyRight => update_bezier (with_quality s (wrap (quality s + 1)))
  | KeyDown KeyOther => Some s
  | OtherEvent => Some s
  end.

Fixpoint run (es : list event) (s : state) : option state :=
  match es with
  | [] => Some s
  | e :: es' => s' ← handle_event e s; run es' s'
  end.

(** The two operations of the quality control. *)
Definition decrease : state -> option state := handle_event (KeyDown KeyLeft).
Definition increase : state -> option state := handle_event (KeyDown KeyRight).

End Tessellator.

(** ** Well-formed inputs *)

(** Both coordinates are regular numbers, as in every point that the main
    loop appends (the coordinates of the pointer, converted from [int]). *)
Definition regular_point (p : vec2) : Prop :=
  F32.regular (x p) = true /\ F32.regular (y p) = true.

Definition regular_vertex (v : vertex) : Prop := regular_point (position v).

Definition finite_point (p : vec2) : Prop :=
  F32.is_finite (x p) = true /\ F32.is_finite (y p) = true.

(** ** What a rebuilt spline looks like *)

Section SplineShape.

Variable hypot : float -> float -> float.

(** What [update_bezier] leaves in [bezier_spline], stated on a spline
    [spline] built from the control points [pts] with [N] samples. *)
Definition samples_of (pts : list vertex) (N : Z) (spline : list bezier_vertex) : Prop :=
  forall i v, spline !! i = Some v ->
    color (base v) = spline_color /\
    bezier pts (sample_parameter N i) = Some (position (base v)).

Definition arc_lengths_of (spline : list bezier_vertex) : Prop :=
  (forall v, spline !! 0%nat = Some v -> dist v = F32.zero) /\
  (forall i a b, spline !! i = Some a -> spline !! (S i) = Some b ->
     dist b =
     (hypot (x (position (base a)) - x (position (base b)))
            (y (position (base a)) - y (position (base b))) + dist a)%f32).

End SplineShape.

(** The coordinates that an event carries are [int]s. *)
Definition int_range (z : Z) : Prop := - 2 ^ 31 <= z < 2 ^ 31.

Definition event_in_range (e : event) : Prop :=
  match e with
  | MouseButtonDown _ mouse_x mouse_y => int_range mouse_x /\ int_range mouse_y
  | _ => True
  end.

(** ** Worked inputs *)

Definition pt (a b : Z) : vertex := Vertex (Vec2 (F32.of_Z a) (F32.of_Z b)) white.

Definition st (pts : list vertex) (q : Z) : state := State pts [] q [] [] [].

(** ** The frame drawn by the main loop *)

Inductive primitive : Type := LineStrip | Points.

(** One [glDrawArrays (mode, first, count)], together with the number of
    vertices held by the buffer bound when it is issued. *)
Record draw_call : Type := DrawCall {
  draw_mode : primitive;
  draw_first : nat;
  draw_count : nat;
  draw_bound : nat
}.

(** The three draw calls of a frame: the control polygon and the control
    points from [vbo_pts], the spline from [vbo_spline]; the counts are the
    sizes of the vectors. *)
Definition draw_frame (s : state) : list draw_call :=
  [ DrawCall LineStrip 0 (length (bezier_pts s)) (length (vbo_pts s));
    DrawCall Points 0 (length (bezier_pts s)) (length (vbo_pts s));
    DrawCall LineStrip 0 (length (bezier_spline s)) (length (vbo_spline s)) ].

(** A draw call that stays inside its buffer. *)
Definition in_bounds (d : draw_call) : Prop :=
  (draw_first d + draw_count d <= draw_bound d)%nat.

(** [float view[16]], row by row, for a window of [width] by [height]
    pixels. *)
Definition view_matrix (width height : Z) : list float :=
  [ (F32.of_Z 2 / F32.of_Z width)%f32; F32.zero; F32.zero; F32.of_Z (-1);
    F32.zero; (F32.of_Z (-2) / F32.of_Z height)%f32; F32.zero; F32.one;
    F32.zero; F32.zero; F32.one; F32.zero;
    F32.zero; F32.zero; F32.zero; F32.one ].

(** ** Kinds of events *)

Definition is_mouse_event (e : event) : Prop :=
  match e with
  | MouseButtonDown _ _ _ => True
  | _ => False
  end.

Definition is_key_event (e : event) : Prop :=
  match e with
  | KeyDown _ => True
  | _ => False
  end.

(** ** Buffers and spline in step with the control points *)

Section Synced.

Variable hypot : float -> float -> float.

(** Both buffers hold the vectors they were uploaded from, and the spline
    is the one that a rebuild produces from the current control points and
    quality. *)
Definition synced (s : state) : Prop :=
  vbo_pts s = bezier_pts s /\
  vbo_spline s = bezier_spline s /\
  bezier_spline <$> update_bezier hypot s = Some (bezier_spline s).

End Synced.

(** ** Rounding an integer to fewer bits *)

(** [M / 2 ^ n] rounded to nearest, ties to even: what the conversion of an
    integer with more than 24 bits does to its mantissa. *)
Definition round_half_even (M n : Z) : Z :=
  M / 2 ^ n +
  (if Z.odd (M / 2 ^ (n - 1)) && (negb (M mod 2 ^ (n - 1) =? 0) || Z.odd (M / 2 ^ n))
   then 1 else 0).

(** * Facts about binary32 arithmetic *)

Module F32Facts.
Import F32.

Lemma digits2_pos_bounds (m : positive) :
  2 ^ (Zpos (digits2_pos m) - 1) <= Zpos m < 2 ^ Zpos (digits2_pos m).
Proof.
  induction m as [p IH | p IH |]; cbn [digits2_pos].
  - rewrite Pos2Z.inj_succ.
    replace (Z.succ (Zpos (digits2_pos p)) - 1) with (Z.succ (Zpos (digits2_pos p) - 1)) by lia.
    rewrite !Z.pow_succ_r by lia. lia.
  - rewrite Pos2Z.inj_succ.
    replace (Z.succ (Zpos (digits2_pos p)) - 1) with (Z.succ (Zpos (digits2_pos p) - 1)) by lia.
    rewrite !Z.pow_succ_r by lia. lia.
  - cbn. lia.
Qed.

Lemma digits2_pos_unique (m : positive) (d : Z) :
  2 ^ (d - 1) <= Zpos m < 2 ^ d -> Zpos (digits2_pos m) = d.
Proof.
  intros [Hlo Hhi].
  pose proof (digits2_pos_bounds m) as [Blo Bhi].
  destruct (Z.lt_trichotomy (Zpos (digits2_pos m)) d) as [Hlt | [Heq | Hgt]]; [ | exact Heq | ].
  - assert (2 ^ Zpos (digits2_pos m) <= 2 ^ (d - 1)) by (apply Z.pow_le_mono_r; lia). lia.
  - assert (0 <= d \/ d < 0) as [Hd | Hd] by lia.
    + assert (2 ^ d <= 2 ^ (Zpos (digits2_pos m) - 1)) by (apply Z.pow_le_mono_r; lia). lia.
    + rewrite (Z.pow_neg_r 2 d) in Hhi by lia. lia.
Qed.

Lemma shr_1_m (mrs : shr_record) :
  0 <= shr_m mrs -> shr_m (shr_1 mrs) = shr_m mrs / 2.
Proof.
  destruct mrs as [m r s]; cbn [shr_m]. intros Hm.
  destruct m as [| [p | p |] | p]; cbn [shr_1 shr_m]; try reflexivity; try lia.
  - rewrite (Pos2Z.inj_xI p). apply (Z.div_unique _ _ _ 1); lia.
  - rewrite (Pos2Z.inj_xO p). apply (Z.div_unique _ _ _ 0); lia.
Qed.

Lemma pow2_xI (n : positive) : 2 ^ Zpos n~1 = 2 * (2 ^ Zpos n * 2 ^ Zpos n).
Proof.
  rewrite (Pos2Z.inj_xI n). replace (2 * Zpos n + 1) with (1 + Zpos n + Zpos n) by lia.
  rewrite !Z.pow_add_r by lia. lia.
Qed.

Lemma pow2_xO (n : positive) : 2 ^ Zpos n~0 = 2 ^ Zpos n * 2 ^ Zpos n.
Proof.
  rewrite (Pos2Z.inj_xO n). replace (2 * Zpos n) with (Zpos n + Zpos n) by lia.
  rewrite !Z.pow_add_r by lia. lia.
Qed.

Lemma iter_shr_1_m (n : positive) (mrs : shr_record) :
  0 <= shr_m mrs -> shr_m (SpecFloat.iter_pos shr_1 n mrs) = shr_m mrs / 2 ^ Zpos n.
Proof.
  revert mrs. induction n as [n IH | n IH |]; intros mrs Hm; cbn [SpecFloat.iter_pos].
  - assert (Hp : 0 < 2 ^ Zpos n) by (apply Z.pow_pos_nonneg; lia).
    assert (H1 : 0 <= shr_m (shr_1 mrs)) by (rewrite shr_1_m by lia; apply Z.div_pos; lia).
    assert (H2 : 0 <= shr_m (SpecFloat.iter_pos shr_1 n (shr_1 mrs))) by (rewrite IH by lia; apply Z.div_pos; lia).
    rewrite IH, IH, shr_1_m by lia.
    rewrite !Z.div_div by lia.
    rewrite pow2_xI. reflexivity.
  - assert (Hp : 0 < 2 ^ Zpos n) by (apply Z.pow_pos_nonneg; lia).
    assert (H2 : 0 <= shr_m (SpecFloat.iter_pos shr_1 n mrs)) by (rewrite IH by lia; apply Z.div_pos; lia).
    rewrite IH, IH by lia.
    rewrite !Z.div_div by lia.
    rewrite pow2_xO. reflexivity.
  - rewrite shr_1_m by lia. reflexivity.
Qed.


Lemma fexp_eq (e : Z) : fexp 24 128 e = Z.max (e - 24) (-149).
Proof. reflexivity. Qed.

Lemma canonical_iff (m : positive) (e : Z) :
  canonical_mantissa 24 128 m e = true <-> Z.max (Zpos (digits2_pos m) + e - 24) (-149) = e.
Proof. unfold canonical_mantissa. rewrite fexp_eq, Z.eqb_eq. reflexivity. Qed.


Lemma binary_round_aux_unfold (s : bool) (mx ex : Z) (lx : location) :
  binary_round_aux 24 128 s mx ex lx =
  renormalize s
    (round_nearest_even (shr_m (fst (shr_fexp 24 128 mx ex lx)))
                        (loc_of_shr_record (fst (shr_fexp 24 128 mx ex lx))))
    (snd (shr_fexp 24 128 mx ex lx)).
Proof.
  unfold binary_round_aux, renormalize.
  destruct (shr_fexp 24 128 mx ex lx) as [mrs' e']. reflexivity.
Qed.

Lemma renormalize_cases (s : bool) (m1 e1 : Z) :
  0 <= m1 <= 2 ^ 24 -> -149 <= e1 -> (e1 = -149 \/ 2 ^ 23 <= m1) ->
  (m1 = 0 /\ renormalize s m1 e1 = S754_zero s) \/
  (exists m', Zpos m' = m1 /\ m1 < 2 ^ 24 /\ renormalize s m1 e1 = finish s m' e1
              /\ canonical_mantissa 24 128 m' e1 = true) \/
  (m1 = 2 ^ 24 /\ renormalize s m1 e1 = finish s (2 ^ 23) (e1 + 1)
              /\ canonical_mantissa 24 128 (2 ^ 23) (e1 + 1) = true).
Proof.
  intros Hm He Hn.
  destruct m1 as [| p | p]; [left | | lia].
  { split; [reflexivity|]. destruct Hn as [-> | Hn]; [reflexivity | lia]. }
  right.
  destruct (Z.eq_dec (Zpos p) (2 ^ 24)) as [Heq | Hne].
  - right. change (2 ^ 24) with 16777216 in Heq. injection Heq as ->. split; [reflexivity|].
    split.
    + unfold renormalize, shr_fexp. change (Zdigits2 16777216) with 25.
      rewrite fexp_eq.
      assert (Hx : Z.max (25 + e1 - 24) (-149) - e1 = 1) by lia.
      rewrite Hx.
      cbn. unfold finish. reflexivity.
    + apply canonical_iff. change (Zpos (digits2_pos (2 ^ 23))) with 24. lia.
  - left. exists p. split; [reflexivity|]. split; [lia|].
    assert (Hd : Zpos (digits2_pos p) <= 24).
    { pose proof (digits2_pos_bounds p) as [Blo _].
      destruct (Z_le_gt_dec (Zpos (digits2_pos p)) 24) as [|Hgt]; [assumption|].
      assert (2 ^ 24 <= 2 ^ (Zpos (digits2_pos p) - 1)) by (apply Z.pow_le_mono_r; lia). lia. }
    assert (Hd' : e1 = -149 \/ Zpos (digits2_pos p) = 24).
    { destruct Hn as [Hn | Hn]; [left; assumption | right].
      apply digits2_pos_unique. change (24 - 1) with 23. lia. }
    assert (Hf : Z.max (Zpos (digits2_pos p) + e1 - 24) (-149) = e1) by lia.
    split.
    + unfold renormalize, shr_fexp. cbn [Zdigits2]. rewrite fexp_eq, Hf, Z.sub_diag.
      cbn. unfold finish. reflexivity.
    + apply canonical_iff. exact Hf.
Qed.

Lemma shr_m_of_loc (m : Z) (l : location) : shr_m (shr_record_of_loc m l) = m.
Proof. destruct l as [| []]; reflexivity. Qed.

Lemma round_nearest_even_range (m : Z) (l : location) :
  m <= round_nearest_even m l <= m + 1.
Proof. destruct l as [| []]; cbn; try destruct (Z.even m); lia. Qed.

Lemma shr_fexp_spec (mz : positive) (ez : Z) (lx : location) :
  let f := Z.max (Zpos (digits2_pos mz) + ez - 24) (-149) in
  ez <= f ->
  snd (shr_fexp 24 128 (Zpos mz) ez lx) = f /\
  shr_m (fst (shr_fexp 24 128 (Zpos mz) ez lx)) = Zpos mz / 2 ^ (f - ez) /\
  (f = ez -> fst (shr_fexp 24 128 (Zpos mz) ez lx) = shr_record_of_loc (Zpos mz) lx).
Proof.
  intros f Hf. unfold shr_fexp. cbn [Zdigits2]. rewrite fexp_eq. fold f.
  unfold shr. destruct (f - ez) as [| n | n] eqn:E; cbn [fst snd].
  - split; [lia|]. split; [|reflexivity]. rewrite shr_m_of_loc, Z.div_1_r. reflexivity.
  - split; [lia|]. split; [|lia]. rewrite iter_shr_1_m by (rewrite shr_m_of_loc; lia).
    rewrite shr_m_of_loc. reflexivity.
  - lia.
Qed.

Lemma quotient_range (mz : positive) (ez : Z) :
  let f := Z.max (Zpos (digits2_pos mz) + ez - 24) (-149) in
  ez <= f ->
  0 <= Zpos mz / 2 ^ (f - ez) < 2 ^ 24 /\
  (f = -149 \/ 2 ^ 23 <= Zpos mz / 2 ^ (f - ez)).
Proof.
  intros f Hf.
  pose proof (digits2_pos_bounds mz) as [Blo Bhi].
  set (d := Zpos (digits2_pos mz)) in *.
  assert (Hp : 0 < 2 ^ (f - ez)) by (apply Z.pow_pos_nonneg; lia).
  split; [split|].
  - apply Z.div_pos; lia.
  - apply Z.div_lt_upper_bound; [lia|].
    rewrite <- Z.pow_add_r by lia.
    assert (2 ^ d <= 2 ^ (f - ez + 24)) by (apply Z.pow_le_mono_r; lia). lia.
  - destruct (Z.eq_dec f (-149)) as [|Hne]; [left; assumption | right].
    apply Z.div_le_lower_bound; [lia|].
    rewrite <- Z.pow_add_r by lia.
    replace (f - ez + 23) with (d - 1) by lia. exact Blo.
Qed.

Lemma binary_round_aux_cases (s : bool) (mz : positive) (ez : Z) (lx : location) :
  let f := Z.max (Zpos (digits2_pos mz) + ez - 24) (-149) in
  ez <= f ->
  (ez < -149 /\ binary_round_aux 24 128 s (Zpos mz) ez lx = S754_zero s) \/
  (exists m' e',
      binary_round_aux 24 128 s (Zpos mz) ez lx = finish s m' e' /\
      canonical_mantissa 24 128 m' e' = true /\
      f <= e' <= f + 1 /\
      (e' = f -> Zpos mz / 2 ^ (f - ez) <= Zpos m') /\
      (f = ez -> lx = loc_Exact -> m' = mz /\ e' = ez)).
Proof.
  intros f Hf. rewrite binary_round_aux_unfold.
  destruct (shr_fexp_spec mz ez lx Hf) as (He & Hm & Hex). fold f in He, Hm, Hex.
  destruct (quotient_range mz ez Hf) as ([Hq0 Hq1] & Hq2). fold f in Hq0, Hq1, Hq2.
  rewrite He, Hm.
  set (q := Zpos mz / 2 ^ (f - ez)) in *.
  set (l := loc_of_shr_record (fst (shr_fexp 24 128 (Zpos mz) ez lx))).
  pose proof (round_nearest_even_range q l) as Hr.
  set (m1 := round_nearest_even q l) in *.
  destruct (renormalize_cases s m1 f) as [[H0 R] | [(m' & Hm' & Hlt & R & C) | (H24 & R & C)]];
    try lia.
  - left. split; [|exact R].
    destruct (Z_lt_ge_dec ez (-149)) as [|Hge]; [assumption|exfalso].
    assert (f = ez) by lia.
    unfold q in Hr. replace (f - ez) with 0 in Hr by lia. rewrite Z.div_1_r in Hr. lia.
  - right. exists m', f. split; [exact R|]. split; [exact C|]. split; [lia|]. split; [lia|].
    intros Hfe ->. split; [|exact Hfe].
    assert (m1 = Zpos mz) as Hm1.
    { unfold m1, l, q. rewrite (Hex Hfe). cbn. replace (f - ez) with 0 by lia.
      rewrite Z.div_1_r. reflexivity. }
    rewrite Hm1 in Hm'. injection Hm' as ->. reflexivity.
  - right. exists (2 ^ 23)%positive, (f + 1). split; [exact R|]. split; [exact C|].
    split; [lia|]. split; [lia|].
    intros Hfe ->. exfalso.
    assert (m1 = Zpos mz) as Hm1.
    { unfold m1, l, q. rewrite (Hex Hfe). cbn. replace (f - ez) with 0 by lia.
      rewrite Z.div_1_r. reflexivity. }
    unfold q in Hq1. replace (f - ez) with 0 in Hq1 by lia. rewrite Z.div_1_r in Hq1. lia.
Qed.

Lemma iter_xO_value (m p : positive) : Zpos (Pos.iter xO m p) = Zpos m * 2 ^ Zpos p.
Proof.
  induction p as [| p IH] using Pos.peano_ind.
  - cbn. lia.
  - rewrite Pos.iter_succ, (Pos2Z.inj_xO (Pos.iter xO m p)), IH, Pos2Z.inj_succ, Z.pow_succ_r by lia. lia.
Qed.

Lemma iter_xO_digits (m p : positive) :
  Zpos (digits2_pos (Pos.iter xO m p)) = Zpos (digits2_pos m) + Zpos p.
Proof.
  induction p as [| p IH] using Pos.peano_ind.
  - cbn [Pos.iter digits2_pos]. lia.
  - rewrite Pos.iter_succ. cbn [digits2_pos]. rewrite Pos2Z.inj_succ, IH. lia.
Qed.

Lemma binary_round_cases (s : bool) (mx : positive) (ex : Z) :
  let f := Z.max (Zpos (digits2_pos mx) + ex - 24) (-149) in
  (ex < -149 /\ binary_round 24 128 s mx ex = S754_zero s) \/
  (exists m' e',
      binary_round 24 128 s mx ex = finish s m' e' /\
      canonical_mantissa 24 128 m' e' = true /\
      f <= e' <= f + 1 /\
      (e' = f -> ex <= f -> Zpos mx / 2 ^ (f - ex) <= Zpos m') /\
      (f <= ex -> e' = f /\ Zpos m' = Zpos mx * 2 ^ (ex - f))).
Proof.
  intros f. unfold binary_round, shl_align. rewrite fexp_eq. fold f.
  destruct (f - ex) as [| n | n] eqn:E.
  - assert (Hf : ex <= Z.max (Zpos (digits2_pos mx) + ex - 24) (-149)) by (fold f; lia).
    destruct (binary_round_aux_cases s mx ex loc_Exact Hf) as [[Hlt R] | (m' & e' & R & C & He & Hq & Hx)];
      [left; split; assumption | fold f in He, Hq, Hx; right].
    exists m', e'. split; [exact R|]. split; [exact C|]. split; [exact He|]. split; [intros H1 _; rewrite E in Hq; exact (Hq H1)|].
    intros _. destruct Hx as [-> ->]; [lia | reflexivity |]. split; [lia|].
    replace (ex - f) with 0 by lia. lia.
  - assert (Hf : ex <= Z.max (Zpos (digits2_pos mx) + ex - 24) (-149)) by (fold f; lia).
    destruct (binary_round_aux_cases s mx ex loc_Exact Hf) as [[Hlt R] | (m' & e' & R & C & He & Hq & Hx)];
      [left; split; assumption | fold f in He, Hq, Hx; right].
    exists m', e'. split; [exact R|]. split; [exact C|]. split; [exact He|]. split; [intros H1 _; rewrite E in Hq; exact (Hq H1)|].
    intros; lia.
  - right.
    assert (Hd := iter_xO_digits mx n).
    assert (Hf : f <= Z.max (Zpos (digits2_pos (Pos.iter xO mx n)) + f - 24) (-149)) by (rewrite Hd; lia).
    destruct (binary_round_aux_cases s (Pos.iter xO mx n) f loc_Exact Hf)
      as [[Hlt R] | (m' & e' & R & C & He & Hq & Hx)]; [lia|].
    rewrite Hd in He, Hq, Hx.
    destruct Hx as [-> ->]; [lia | reflexivity |].
    exists (Pos.iter xO mx n), f. split; [exact R|]. split; [exact C|]. split; [lia|].
    split; [intros; lia|]. intros _. split; [reflexivity|].
    rewrite iter_xO_value. f_equal. f_equal. lia.
Qed.


Lemma bounded_iff (m : positive) (e : Z) :
  bounded 24 128 m e = true <->
  Z.max (Zpos (digits2_pos m) + e - 24) (-149) = e /\ e <= 104.
Proof.
  unfold bounded. rewrite andb_true_iff, canonical_iff, Z.leb_le. reflexivity.
Qed.

Lemma finish_valid (s : bool) (m : positive) (e : Z) :
  canonical_mantissa 24 128 m e = true -> valid (finish s m e) = true.
Proof.
  intros C. unfold finish. destruct (e <=? 104) eqn:E; [|reflexivity].
  cbn. unfold bounded. rewrite C. exact E.
Qed.

Lemma binary_round_valid (s : bool) (m : positive) (e : Z) :
  valid (binary_round 24 128 s m e) = true.
Proof.
  destruct (binary_round_cases s m e) as [[_ ->] | (m' & e' & -> & C & _)].
  - reflexivity.
  - apply finish_valid, C.
Qed.

Lemma shl_align_value (m : positive) (e ez : Z) :
  ez <= e -> Zpos (fst (shl_align m e ez)) = Zpos m * 2 ^ (e - ez).
Proof.
  intros H. unfold shl_align. destruct (ez - e) as [| p | p] eqn:E; cbn [fst].
  - replace (e - ez) with 0 by lia. lia.
  - lia.
  - rewrite iter_xO_value. f_equal. f_equal. lia.
Qed.

Lemma digits2_pos_lower (m : positive) (k : Z) :
  2 ^ (k - 1) <= Zpos m -> k <= Zpos (digits2_pos m).
Proof.
  intros H. pose proof (digits2_pos_bounds m) as [_ Bhi].
  destruct (Z_le_gt_dec k (Zpos (digits2_pos m))) as [|Hgt]; [assumption|].
  assert (2 ^ Zpos (digits2_pos m) <= 2 ^ (k - 1)) by (apply Z.pow_le_mono_r; lia). lia.
Qed.

Lemma add_finite_cases (mh md : positive) (eh ed : Z) :
  bounded 24 128 mh eh = true -> bounded 24 128 md ed = true ->
  SFadd 24 128 (S754_finite false mh eh) (S754_finite false md ed) = S754_infinity false \/
  exists m' e',
    SFadd 24 128 (S754_finite false mh eh) (S754_finite false md ed) = S754_finite false m' e' /\
    bounded 24 128 m' e' = true /\
    (ed < e' \/ (ed = e' /\ (md <= m')%positive)).
Proof.
  intros Bh Bd.
  apply bounded_iff in Bh as [Ch Lh]. apply bounded_iff in Bd as [Cd Ld].
  cbn [SFadd cond_Zopp]. set (ez := Z.min eh ed).
  assert (Hh := shl_align_value mh eh ez ltac:(lia)).
  assert (Hd := shl_align_value md ed ez ltac:(lia)).
  set (ah := fst (shl_align mh eh ez)) in *. set (ad := fst (shl_align md ed ez)) in *.
  change (Z.pos ah + Z.pos ad) with (Z.pos (ah + ad)). cbn [binary_normalize].
  destruct (binary_round_cases false (ah + ad) ez) as [[Hlt _] | (m' & e' & R & C & He & Hq & _)];
    [lia|].
  rewrite R. unfold finish. destruct (e' <=? 104) eqn:E; [right | left; reflexivity].
  exists m', e'. split; [reflexivity|]. split.
  { unfold bounded. rewrite C. exact E. }
  set (f := Z.max (Zpos (digits2_pos (ah + ad)) + ez - 24) (-149)) in *.
  assert (Hp : 0 < 2 ^ (ed - ez)) by (apply Z.pow_pos_nonneg; lia).
  assert (Hsum : Zpos md * 2 ^ (ed - ez) <= Zpos (ah + ad)) by (rewrite Pos2Z.inj_add; lia).
  assert (Hdig : Zpos (digits2_pos md) + (ed - ez) <= Zpos (digits2_pos (ah + ad))).
  { apply digits2_pos_lower.
    pose proof (digits2_pos_bounds md) as [Blo _].
    replace (Zpos (digits2_pos md) + (ed - ez) - 1) with (Zpos (digits2_pos md) - 1 + (ed - ez)) by lia.
    rewrite Z.pow_add_r by lia. nia. }
  assert (Hf : ed <= f) by lia.
  destruct (Z_lt_le_dec ed e') as [Hlt | Hle]; [left; exact Hlt | right].
  assert (e' = f) by lia. assert (ed = f) by lia.
  split; [lia|].
  assert (Hm : Zpos md <= Zpos m').
  { etransitivity; [|apply Hq; lia].
    replace (f - ez) with (ed - ez) by lia.
    apply Z.div_le_lower_bound; lia. }
  exact Hm.
Qed.

(** *** Addition of two numbers whose sign bit is clear *)

Lemma compare_refl (a : float) : is_nan a = false -> SFcompare a a = Some Eq.
Proof.
  destruct a as [[] | [] | | [] m e]; cbn; try discriminate; intros _; try reflexivity;
    rewrite Z.compare_refl, Pos.compare_cont_refl; reflexivity.
Qed.

Lemma add_sign_clear (h d : float) :
  valid h = true -> valid d = true -> sign_clear h = true -> sign_clear d = true ->
  valid (h + d)%f32 = true /\ sign_clear (h + d)%f32 = true /\
  (is_nan (h + d)%f32 = true \/ leb d (h + d)%f32 = true) /\
  (is_nan h = false -> is_nan d = false -> is_nan (h + d)%f32 = false).
Proof.
  intros Vh Vd Sh Sd.
  destruct h as [sh | sh | | sh mh eh]; destruct d as [sd | sd | | sd md ed];
    cbn in Sh, Sd; try (destruct sh; [discriminate|]); try (destruct sd; [discriminate|]);
    clear Sh Sd;
    try (repeat split; intros;
         first [reflexivity | assumption | discriminate | right; reflexivity | left; reflexivity ]).
  - (* zero + finite *)
    repeat split; try assumption; try reflexivity.
    right. unfold leb, SFleb, add. cbn [SFadd].
    rewrite compare_refl by reflexivity. reflexivity.
  - (* finite + finite *)
    destruct (add_finite_cases mh md eh ed Vh Vd) as [R | (m' & e' & R & B & Hcmp)];
      unfold add; rewrite R.
    + repeat split; right; reflexivity.
    + repeat split; try assumption.
      right. unfold leb, SFleb. cbn [SFcompare].
      destruct Hcmp as [Hlt | [-> Hle]].
      * apply Z.compare_lt_iff in Hlt. rewrite Hlt. reflexivity.
      * rewrite Z.compare_refl.
        change (Pos.compare_cont Eq md m') with (md ?= m')%positive.
        destruct (md ?= m')%positive eqn:E; try reflexivity.
        exfalso. apply Hle, E.
Qed.

(** *** Multiplication by one, division of a number by itself *)

Lemma mul_pow23 (m : positive) : (m * 8388608)%positive = Pos.iter xO m 23.
Proof.
  apply Pos2Z.inj. rewrite iter_xO_value, Pos2Z.inj_mul.
  change (2 ^ 23) with 8388608. reflexivity.
Qed.

Lemma shr_fexp_mul_one (m : positive) (e : Z) :
  canonical_mantissa 24 128 m e = true ->
  shr_fexp 24 128 (Zpos (m * 8388608)) (e + -23) loc_Exact =
  ({| shr_m := Zpos m; shr_r := false; shr_s := false |}, e).
Proof.
  intros C. apply canonical_iff in C.
  rewrite mul_pow23. unfold shr_fexp. cbn [Zdigits2].
  rewrite iter_xO_digits, fexp_eq.
  assert (Hs : Z.max (Zpos (digits2_pos m) + 23 + (e + -23) - 24) (-149) - (e + -23) = 23) by lia.
  rewrite Hs. unfold shr. replace (e + -23 + 23) with e by lia. reflexivity.
Qed.

Lemma mul_one_r (a : float) : valid a = true -> (a * one)%f32 = a.
Proof.
  destruct a as [s | s | | s m e]; intros V; unfold mul, one; cbn [SFmul];
    rewrite ?xorb_false_r; try reflexivity.
  cbn in V. pose proof V as B. apply bounded_iff in B as [C L].
  rewrite binary_round_aux_unfold, shr_fexp_mul_one by (apply canonical_iff; exact C).
  cbn [fst snd shr_m loc_of_shr_record round_nearest_even].
  pose proof (digits2_pos_bounds m) as [Blo Bhi].
  assert (Hd : Zpos (digits2_pos m) <= 24) by lia.
  assert (H24 : Zpos m < 2 ^ 24).
  { assert (2 ^ Zpos (digits2_pos m) <= 2 ^ 24) by (apply Z.pow_le_mono_r; lia). lia. }
  assert (Hn : e = -149 \/ 2 ^ 23 <= Zpos m).
  { destruct (Z.eq_dec e (-149)) as [|Hne]; [left; assumption | right].
    replace (Zpos (digits2_pos m)) with 24 in Blo by lia. exact Blo. }
  destruct (renormalize_cases s (Zpos m) e) as [[H0 _] | [(m' & Hm' & _ & R & _) | (Habs & _)]];
    try lia.
  rewrite R. injection Hm' as ->. unfold finish.
  apply Z.leb_le in L. rewrite L. reflexivity.
Qed.

Lemma div_eucl_mul (a : positive) (k : Z) :
  Z.div_eucl (Zpos a * k) (Zpos a) = (k, 0).
Proof.
  assert (H : Z.div_eucl (Zpos a * k) (Zpos a) = ((Zpos a * k) / Zpos a, (Zpos a * k) mod Zpos a)).
  { unfold Z.div, Z.modulo. destruct (Z.div_eucl (Zpos a * k) (Zpos a)). reflexivity. }
  rewrite H. f_equal.
  - rewrite Z.mul_comm. apply Z.div_mul. lia.
  - rewrite Z.mul_comm. apply Z.mod_mul. lia.
Qed.

Lemma new_location_zero (n : Z) : new_location n 0 = loc_Exact.
Proof. unfold new_location. destruct (Z.even n); reflexivity. Qed.

Lemma div_core_diag (m : positive) (e : Z) :
  SFdiv_core_binary 24 128 (Zpos m) e (Zpos m) e = (16777216, -24, loc_Exact).
Proof.
  unfold SFdiv_core_binary. cbv zeta. rewrite !Z.sub_diag.
  change (fexp 24 128 0) with (-24). change (Z.min (-24) 0) with (-24).
  change (0 - -24) with 24. cbv iota.
  rewrite Z.shiftl_mul_pow2 by lia. rewrite div_eucl_mul, new_location_zero.
  reflexivity.
Qed.

Lemma div_diag (s : bool) (m : positive) (e : Z) :
  (S754_finite s m e / S754_finite s m e)%f32 = one.
Proof.
  unfold div. cbn [SFdiv]. rewrite div_core_diag, xorb_nilpotent. reflexivity.
Qed.

(** *** Conversion of integers *)

Lemma digits2_pos_upper (m : positive) (k : Z) :
  Zpos m < 2 ^ k -> Zpos (digits2_pos m) <= k.
Proof.
  intros H. pose proof (digits2_pos_bounds m) as [Blo _].
  destruct (Z_le_gt_dec (Zpos (digits2_pos m)) k) as [|Hgt]; [assumption|].
  assert (0 <= k \/ k < 0) as [Hk | Hk] by lia.
  - assert (2 ^ k <= 2 ^ (Zpos (digits2_pos m) - 1)) by (apply Z.pow_le_mono_r; lia). lia.
  - rewrite Z.pow_neg_r in H by lia. lia.
Qed.

Lemma binary_round_int (s : bool) (p : positive) :
  Zpos p < 2 ^ 64 ->
  exists m e, binary_round 24 128 s p 0 = S754_finite s m e /\ bounded 24 128 m e = true.
Proof.
  intros Hp. pose proof (digits2_pos_upper p 64 Hp) as Hd.
  destruct (binary_round_cases s p 0) as [[Hlt _] | (m' & e' & R & C & He & _)]; [lia|].
  assert (L : e' <= 104) by lia.
  exists m', e'. rewrite R. unfold finish.
  apply Z.leb_le in L. rewrite L. split; [reflexivity|].
  unfold bounded. rewrite C. exact L.
Qed.

Lemma of_Z_pos (z : Z) :
  0 < z < 2 ^ 64 ->
  exists m e, of_Z z = S754_finite false m e /\ bounded 24 128 m e = true.
Proof.
  intros Hz. destruct z as [| p | p]; try lia.
  unfold of_Z. cbn [binary_normalize]. apply binary_round_int. lia.
Qed.

Lemma of_Z_regular (z : Z) : - 2 ^ 64 < z < 2 ^ 64 -> regular (of_Z z) = true.
Proof.
  intros Hz. destruct z as [| p | p]; [reflexivity | |]; unfold of_Z; cbn [binary_normalize].
  - destruct (binary_round_int false p) as (m & e & -> & B); [lia | exact B].
  - destruct (binary_round_int true p) as (m & e & -> & B); [lia | exact B].
Qed.

Lemma regular_valid (a : float) : regular a = true -> valid a = true.
Proof. destruct a; cbn; intros H; try discriminate; auto. Qed.

Lemma regular_finite (a : float) : regular a = true -> is_finite a = true.
Proof. destruct a; cbn; intros H; try discriminate; auto. Qed.

(** *** Subtraction of finite numbers *)

Lemma binary_normalize_not_nan (z e : Z) (s : bool) :
  is_nan (binary_normalize 24 128 z e s) = false.
Proof.
  destruct z as [| p | p]; cbn [binary_normalize]; [reflexivity | |].
  - destruct (binary_round_cases false p e) as [[_ ->] | (m' & e' & -> & _)];
      [reflexivity | unfold finish; destruct (e' <=? 104); reflexivity].
  - destruct (binary_round_cases true p e) as [[_ ->] | (m' & e' & -> & _)];
      [reflexivity | unfold finish; destruct (e' <=? 104); reflexivity].
Qed.

Lemma sub_finite_not_nan (a b : float) :
  is_finite a = true -> is_finite b = true -> is_nan (a - b)%f32 = false.
Proof.
  destruct a as [sa | sa | | sa ma ea]; destruct b as [sb | sb | | sb mb eb];
    cbn [is_finite]; try discriminate; intros _ _; unfold sub; cbn [SFsub].
  - destruct sa, sb; reflexivity.
  - reflexivity.
  - reflexivity.
  - apply binary_normalize_not_nan.
Qed.

Lemma sub_diag (a : float) : is_finite a = true -> (a - a)%f32 = zero.
Proof.
  destruct a as [s | s | | s m e]; cbn [is_finite]; try discriminate; intros _;
    unfold sub; cbn [SFsub].
  - destruct s; reflexivity.
  - rewrite Z.sub_diag. reflexivity.
Qed.

(** *** One interpolation at the ends of the parameter range *)

Lemma mul_zero_r (a : float) :
  is_finite a = true -> exists s, (a * zero)%f32 = S754_zero s.
Proof.
  destruct a as [s | s | | s m e]; cbn [is_finite]; try discriminate; intros _;
    unfold mul, zero; cbn [SFmul]; eauto.
Qed.

Lemma add_zero_r (a : float) (s : bool) :
  regular a = true -> (a + S754_zero s)%f32 = a.
Proof.
  destruct a as [sa | sa | | sa m e]; cbn [regular]; try discriminate; intros H;
    unfold add; cbn [SFadd]; [|reflexivity].
  destruct sa; [discriminate|]. destruct s; reflexivity.
Qed.

Lemma add_zero_l (a : float) (s : bool) :
  regular a = true -> (S754_zero s + a)%f32 = a.
Proof.
  destruct a as [sa | sa | | sa m e]; cbn [regular]; try discriminate; intros H;
    unfold add; cbn [SFadd]; [|reflexivity].
  destruct sa; [discriminate|]. destruct s; reflexivity.
Qed.

Lemma interpolate_zero (a b : float) :
  regular a = true -> is_finite b = true ->
  (a * (one - zero) + b * zero)%f32 = a.
Proof.
  intros Ra Fb. change (one - zero)%f32 with one.
  rewrite mul_one_r by (apply regular_valid, Ra).
  destruct (mul_zero_r b Fb) as [s ->]. apply add_zero_r, Ra.
Qed.

Lemma interpolate_one (a b : float) :
  is_finite a = true -> regular b = true ->
  (a * (one - one) + b * one)%f32 = b.
Proof.
  intros Fa Rb. change (one - one)%f32 with zero.
  rewrite mul_one_r by (apply regular_valid, Rb).
  destruct (mul_zero_r a Fa) as [s ->]. apply add_zero_l, Rb.
Qed.

Lemma mul_comm (a b : float) : (a * b)%f32 = (b * a)%f32.
Proof.
  destruct a as [sa | sa | | sa ma ea]; destruct b as [sb | sb | | sb mb eb];
    unfold mul; cbn [SFmul]; rewrite ?(xorb_comm sa sb); try reflexivity.
  rewrite (Pos.mul_comm ma mb), (Z.add_comm ea eb). reflexivity.
Qed.

(** *** The reference [hypot] *)

Lemma binary_round_shape (s : bool) (m : positive) (e : Z) :
  binary_round 24 128 s m e = S754_zero s \/
  binary_round 24 128 s m e = S754_infinity s \/
  exists m' e', binary_round 24 128 s m e = S754_finite s m' e'.
Proof.
  destruct (binary_round_cases s m e) as [[_ ->] | (m' & e' & -> & _)]; [left; reflexivity|].
  right. unfold finish. destruct (e' <=? 104); [right; eauto | left; reflexivity].
Qed.

Lemma narrow_valid (a : float) : valid (narrow a) = true.
Proof. destruct a; try reflexivity. apply binary_round_valid. Qed.

Lemma narrow_id (a : float) : valid a = true -> narrow a = a.
Proof.
  destruct a as [s | s | | s m e]; try reflexivity. cbn [narrow valid valid_binary].
  intros B. apply bounded_iff in B as [C L].
  destruct (binary_round_cases s m e) as [[Hlt _] | (m' & e' & R & _ & _ & _ & Hx)]; [lia|].
  destruct Hx as [-> Hm]; [lia|]. rewrite C, Z.sub_diag, Z.mul_1_r in Hm.
  injection Hm as ->. rewrite R, C. unfold finish.
  apply Z.leb_le in L. rewrite L. reflexivity.
Qed.

Lemma narrow_sign (a : float) : sign_clear (narrow a) = sign_clear a.
Proof.
  destruct a as [s | s | | s m e]; try reflexivity. cbn [narrow].
  destruct (binary_round_shape s m e) as [-> | [-> | (m' & e' & ->)]]; reflexivity.
Qed.

Lemma narrow_nan (a : float) : is_nan (narrow a) = is_nan a.
Proof.
  destruct a as [s | s | | s m e]; try reflexivity. cbn [narrow].
  destruct (binary_round_shape s m e) as [-> | [-> | (m' & e' & ->)]]; reflexivity.
Qed.

Lemma abs_valid (a : float) : valid a = true -> valid (SFabs a) = true.
Proof. destruct a; auto. Qed.

Lemma hypot_ref_zero_r (a : float) (s : bool) :
  valid a = true -> hypot_ref a (S754_zero s) = SFabs a.
Proof.
  intros V. destruct a; try reflexivity. cbn [hypot_ref].
  apply narrow_id, abs_valid, V.
Qed.

Lemma hypot_ref_valid (a b : float) : valid (hypot_ref a b) = true.
Proof.
  destruct a as [sa | sa | | sa ma ea]; destruct b as [sb | sb | | sb mb eb];
    try reflexivity; cbn [hypot_ref]; try apply narrow_valid.
  destruct (Z.sqrtrem _) as [r rest].
  destruct (2 * r + _) as [| p | p]; try reflexivity.
  apply binary_round_valid.
Qed.

Lemma hypot_ref_sign (a b : float) : sign_clear (hypot_ref a b) = true.
Proof.
  destruct a as [sa | sa | | sa ma ea]; destruct b as [sb | sb | | sb mb eb];
    try reflexivity; cbn [hypot_ref]; rewrite ?narrow_sign; try reflexivity.
  destruct (Z.sqrtrem _) as [r rest].
  destruct (2 * r + _) as [| p | p]; try reflexivity.
  destruct (binary_round_shape false p (Z.min ea eb - 33)) as [-> | [-> | (m' & e' & ->)]];
    reflexivity.
Qed.

Lemma hypot_ref_nan (a b : float) :
  is_nan (hypot_ref a b) = true -> is_nan a = true \/ is_nan b = true.
Proof.
  destruct a as [sa | sa | | sa ma ea]; destruct b as [sb | sb | | sb mb eb];
    cbn [hypot_ref]; rewrite ?narrow_nan; cbn [SFabs is_nan]; try discriminate; auto.
  destruct (Z.sqrtrem _) as [r rest].
  destruct (2 * r + _) as [| p | p]; try discriminate.
  destruct (binary_round_shape false p (Z.min ea eb - 33)) as [-> | [-> | (m' & e' & ->)]];
    discriminate.
Qed.

(** *** Order on numbers whose sign bit is clear *)

Lemma leb_refl (a : float) : is_nan a = false -> leb a a = true.
Proof. intros H. unfold leb, SFleb. rewrite compare_refl by exact H. reflexivity. Qed.

Lemma leb_not_nan (a b : float) : leb a b = true -> is_nan a = false /\ is_nan b = false.
Proof.
  unfold leb, SFleb.
  destruct a as [sa | sa | | sa ma ea]; destruct b as [sb | sb | | sb mb eb];
    cbn; try discriminate; auto.
Qed.

Lemma leb_trans (a b c : float) :
  sign_clear a = true -> sign_clear b = true -> sign_clear c = true ->
  leb a b = true -> leb b c = true -> leb a c = true.
Proof.
  unfold leb, SFleb.
  destruct a as [sa | sa | | sa ma ea]; destruct b as [sb | sb | | sb mb eb];
    destruct c as [sc | sc | | sc mc ec]; cbn [sign_clear];
    try (destruct sa; [discriminate|]); try (destruct sb; [discriminate|]);
    try (destruct sc; [discriminate|]);
    intros _ _ _; cbn [SFcompare]; try discriminate; try reflexivity.
  change (Pos.compare_cont Eq ma mb) with (ma ?= mb)%positive.
  change (Pos.compare_cont Eq mb mc) with (mb ?= mc)%positive.
  change (Pos.compare_cont Eq ma mc) with (ma ?= mc)%positive.
  destruct (Z.compare_spec ea eb); destruct (Z.compare_spec eb ec);
    destruct (Z.compare_spec ea ec); try discriminate; try reflexivity; try lia;
    destruct (Pos.compare_spec ma mb); destruct (Pos.compare_spec mb mc);
    destruct (Pos.compare_spec ma mc); try discriminate; try reflexivity; try lia.
Qed.

Lemma add_nan_r (h : float) : (h + S754_nan)%f32 = S754_nan.
Proof. destruct h; reflexivity. Qed.

(** *** The shape of a rounded result *)

Lemma binary_round_aux_shape (s : bool) (mz : positive) (ez : Z) (lx : location) :
  let f := Z.max (Zpos (digits2_pos mz) + ez - 24) (-149) in
  ez <= f -> -149 <= ez ->
  exists m' e',
    binary_round_aux 24 128 s (Zpos mz) ez lx = finish s m' e' /\
    canonical_mantissa 24 128 m' e' = true /\
    ((e' = f /\ Zpos m' < 2 ^ 24) \/ (e' = f + 1 /\ m' = (2 ^ 23)%positive)).
Proof.
  intros f Hf Hez. rewrite binary_round_aux_unfold.
  destruct (shr_fexp_spec mz ez lx Hf) as (He & Hm & Hex). fold f in He, Hm, Hex.
  destruct (quotient_range mz ez Hf) as ([Hq0 Hq1] & Hq2). fold f in Hq0, Hq1, Hq2.
  rewrite He, Hm.
  set (q := Zpos mz / 2 ^ (f - ez)) in *.
  set (l := loc_of_shr_record (fst (shr_fexp 24 128 (Zpos mz) ez lx))).
  pose proof (round_nearest_even_range q l) as Hr.
  set (m1 := round_nearest_even q l) in *.
  destruct (renormalize_cases s m1 f) as [[H0 R] | [(m' & Hm' & Hlt & R & C) | (H24 & R & C)]];
    try lia.
  - exfalso. assert (f = ez) by lia.
    unfold q in Hr. replace (f - ez) with 0 in Hr by lia. rewrite Z.div_1_r in Hr. lia.
  - exists m', f. split; [exact R|]. split; [exact C|]. left. split; [reflexivity | lia].
  - exists (2 ^ 23)%positive, (f + 1). split; [exact R|]. split; [exact C|].
    right. split; reflexivity.
Qed.

(** *** Integers below [2 ^ 64] convert to normal numbers *)

Lemma of_Z_normal (z : Z) :
  0 < z < 2 ^ 64 ->
  exists m e,
    of_Z z = S754_finite false m e /\ bounded 24 128 m e = true /\
    Zpos (digits2_pos m) = 24 /\ -23 <= e <= 41.
Proof.
  intros Hz. destruct z as [| p | p]; try lia.
  unfold of_Z. cbn [binary_normalize].
  pose proof (digits2_pos_upper p 64 ltac:(lia)) as Hd.
  assert (Hd1 : 1 <= Zpos (digits2_pos p)) by lia.
  destruct (binary_round_cases false p 0) as [[Hlt _] | (m' & e' & R & C & He & _)]; [lia|].
  assert (L : e' <= 104) by lia.
  exists m', e'. rewrite R. unfold finish.
  pose proof L as L'. apply Z.leb_le in L'. rewrite L'. split; [reflexivity|].
  split; [unfold bounded; rewrite C; exact L'|].
  apply canonical_iff in C. lia.
Qed.

(** Integers below [2 ^ 24] are converted exactly. *)
Lemma of_Z_small (z : Z) :
  0 < z < 2 ^ 24 ->
  exists m e,
    of_Z z = S754_finite false m e /\
    2 ^ 23 <= Zpos m < 2 ^ 24 /\ -23 <= e <= 0 /\ Zpos m = z * 2 ^ (- e).
Proof.
  intros Hz. destruct z as [| p | p]; try lia.
  unfold of_Z. cbn [binary_normalize].
  pose proof (digits2_pos_upper p 24 ltac:(lia)) as Hd.
  assert (Hd1 : 1 <= Zpos (digits2_pos p)) by lia.
  destruct (binary_round_cases false p 0) as [[Hlt _] | (m' & e' & R & C & He & _ & Hx)]; [lia|].
  destruct Hx as [He' Hm']; [lia|].
  assert (Ef : e' = Zpos (digits2_pos p) - 24) by lia.
  exists m', e'. rewrite R. unfold finish.
  assert (L : (e' <=? 104) = true) by (apply Z.leb_le; lia). rewrite L.
  split; [reflexivity|].
  apply canonical_iff in C.
  pose proof (digits2_pos_bounds m') as B.
  replace (Zpos (digits2_pos m')) with 24 in B by lia. change (24 - 1) with 23 in B.
  split; [exact B|]. split; [lia|].
  rewrite Hm'. f_equal. f_equal. lia.
Qed.

Lemma of_Z_small_mono (z z' : Z) (m m' : positive) (e e' : Z) :
  0 < z <= z' ->
  2 ^ 23 <= Zpos m < 2 ^ 24 -> 2 ^ 23 <= Zpos m' < 2 ^ 24 ->
  e <= 0 -> e' <= 0 ->
  Zpos m = z * 2 ^ (- e) -> Zpos m' = z' * 2 ^ (- e') ->
  e < e' \/ (e = e' /\ Zpos m <= Zpos m').
Proof.
  intros Hz Hm Hm' He He' E E'.
  destruct (Z.lt_trichotomy e e') as [Hlt | [Heq | Hgt]]; [left; exact Hlt | right | exfalso].
  - subst e'. split; [reflexivity|]. rewrite E, E'.
    apply Z.mul_le_mono_nonneg_r; [apply Z.pow_nonneg; lia | lia].
  - assert (P : 2 ^ (- e') = 2 ^ (- e) * 2 ^ (e - e')).
    { rewrite <- Z.pow_add_r by lia. f_equal. lia. }
    assert (P2 : 2 <= 2 ^ (e - e')).
    { change 2 with (2 ^ 1) at 1. apply Z.pow_le_mono_r; lia. }
    assert (P3 : 0 < 2 ^ (- e)) by (apply Z.pow_pos_nonneg; lia).
    rewrite P in E'. nia.
Qed.

(** *** Division of a positive normal number by a larger one *)

Lemma div_core_normal (ma mb : positive) (ea eb : Z) :
  Zpos (digits2_pos ma) = 24 -> Zpos (digits2_pos mb) = 24 -> -125 <= ea - eb ->
  SFdiv_core_binary 24 128 (Zpos ma) ea (Zpos mb) eb =
  (Zpos ma * 2 ^ 24 / Zpos mb, ea - eb - 24,
   new_location (Zpos mb) ((Zpos ma * 2 ^ 24) mod Zpos mb)).
Proof.
  intros Ha Hb Hd. unfold SFdiv_core_binary. cbv zeta. cbn [Zdigits2].
  rewrite Ha, Hb, fexp_eq.
  assert (E1 : Z.min (Z.max (24 + ea - (24 + eb) - 24) (-149)) (ea - eb) = ea - eb - 24) by lia.
  rewrite E1.
  assert (E2 : ea - eb - (ea - eb - 24) = 24) by lia.
  rewrite E2. cbv iota. rewrite Z.shiftl_mul_pow2 by lia.
  unfold Z.div, Z.modulo. destruct (Z.div_eucl (Zpos ma * 2 ^ 24) (Zpos mb)). reflexivity.
Qed.

Lemma div_le_one_core (ma mb : positive) (ea eb : Z) :
  2 ^ 23 <= Zpos ma < 2 ^ 24 -> 2 ^ 23 <= Zpos mb < 2 ^ 24 ->
  ea < eb \/ (ea = eb /\ Zpos ma < Zpos mb) ->
  -125 <= ea - eb ->
  exists m e,
    (S754_finite false ma ea / S754_finite false mb eb)%f32 = S754_finite false m e /\
    bounded 24 128 m e = true /\
    leb (S754_finite false m e) one = true.
Proof.
  intros Ha Hb Hlt Hd.
  assert (Da : Zpos (digits2_pos ma) = 24) by (apply digits2_pos_unique; exact Ha).
  assert (Db : Zpos (digits2_pos mb) = 24) by (apply digits2_pos_unique; exact Hb).
  unfold div. cbn [SFdiv]. rewrite div_core_normal by assumption. cbn [xorb].
  set (l := new_location _ _). clearbody l.
  assert (P24 : 2 ^ 24 = 2 * 2 ^ 23) by reflexivity.
  assert (P23 : 0 < 2 ^ 23) by reflexivity.
  assert (Hq1 : 2 ^ 23 <= Zpos ma * 2 ^ 24 / Zpos mb).
  { apply Z.div_le_lower_bound; [lia | nia]. }
  assert (Hq2 : Zpos ma * 2 ^ 24 / Zpos mb < 2 ^ 25).
  { apply Z.div_lt_upper_bound; [lia|]. change (2 ^ 25) with (2 * 2 ^ 24). nia. }
  assert (Hq3 : ea = eb -> Zpos ma * 2 ^ 24 / Zpos mb < 2 ^ 24).
  { intros E. apply Z.div_lt_upper_bound; [lia | nia]. }
  destruct (Zpos ma * 2 ^ 24 / Zpos mb) as [| qp | qp] eqn:Eq; try lia.
  pose proof (digits2_pos_lower qp 24 Hq1) as Dq1.
  pose proof (digits2_pos_upper qp 25 Hq2) as Dq2.
  assert (Dq3 : ea = eb -> Zpos (digits2_pos qp) = 24).
  { intros E. pose proof (digits2_pos_upper qp 24 (Hq3 E)). lia. }
  destruct (binary_round_aux_shape false qp (ea - eb - 24) l)
    as (m' & e' & R & C & Hsh); [lia | lia |].
  assert (Hcmp : e' < -23 \/ (e' = -23 /\ m' = (2 ^ 23)%positive)).
  { destruct Hlt as [Hlt | [E Hlt]].
    - destruct Hsh as [[E1 _] | [E1 E2]]; [left; lia|].
      destruct (Z.eq_dec e' (-23)); [right; split; assumption | left; lia].
    - specialize (Dq3 E).
      destruct Hsh as [[E1 _] | [E1 E2]]; [left; lia | right; split; [lia | exact E2]]. }
  assert (L : (e' <=? 104) = true) by (apply Z.leb_le; lia).
  exists m', e'. rewrite R. unfold finish. rewrite L. split; [reflexivity|].
  split; [unfold bounded; rewrite C; exact L|].
  unfold leb, SFleb, one. cbn [SFcompare].
  destruct Hcmp as [Hc | [-> ->]].
  - apply Z.compare_lt_iff in Hc. rewrite Hc. reflexivity.
  - reflexivity.
Qed.

Lemma div_le_one (ma mb : positive) (ea eb : Z) :
  2 ^ 23 <= Zpos ma < 2 ^ 24 -> 2 ^ 23 <= Zpos mb < 2 ^ 24 ->
  ea < eb \/ (ea = eb /\ Zpos ma <= Zpos mb) ->
  -125 <= ea - eb ->
  exists m e,
    (S754_finite false ma ea / S754_finite false mb eb)%f32 = S754_finite false m e /\
    bounded 24 128 m e = true /\
    leb (S754_finite false m e) one = true.
Proof.
  intros Ha Hb Hle Hd.
  destruct (Z.eq_dec ea eb) as [Ee | Ene]; [destruct (Pos.eq_dec ma mb) as [Em | Emn]|].
  - subst. rewrite div_diag. exists 8388608%positive, (-23). repeat split.
  - assert (Hlt : Zpos ma < Zpos mb) by (destruct Hle as [? | [_ ?]]; [lia|]; assert (Zpos ma <> Zpos mb) by congruence; lia).
    clear Hle. subst eb.
    apply (div_le_one_core ma mb ea ea); auto; lia.
  - apply (div_le_one_core ma mb ea eb); auto; lia.
Qed.

(** *** Division of two normal numbers *)

Lemma div_normal (sa sb : bool) (ma mb : positive) (ea eb : Z) :
  2 ^ 23 <= Zpos ma < 2 ^ 24 -> 2 ^ 23 <= Zpos mb < 2 ^ 24 ->
  -125 <= ea - eb <= 100 ->
  exists m e,
    (S754_finite sa ma ea / S754_finite sb mb eb)%f32 = S754_finite (xorb sa sb) m e /\
    bounded 24 128 m e = true.
Proof.
  intros Ha Hb Hd.
  assert (Da : Zpos (digits2_pos ma) = 24) by (apply digits2_pos_unique; exact Ha).
  assert (Db : Zpos (digits2_pos mb) = 24) by (apply digits2_pos_unique; exact Hb).
  unfold div. cbn [SFdiv]. rewrite div_core_normal by (assumption || lia).
  set (l := new_location _ _). clearbody l.
  assert (P24 : 2 ^ 24 = 2 * 2 ^ 23) by reflexivity.
  assert (P23 : 0 < 2 ^ 23) by reflexivity.
  assert (Hq1 : 2 ^ 23 <= Zpos ma * 2 ^ 24 / Zpos mb).
  { apply Z.div_le_lower_bound; [lia | nia]. }
  assert (Hq2 : Zpos ma * 2 ^ 24 / Zpos mb < 2 ^ 25).
  { apply Z.div_lt_upper_bound; [lia|]. change (2 ^ 25) with (2 * 2 ^ 24). nia. }
  destruct (Zpos ma * 2 ^ 24 / Zpos mb) as [| qp | qp] eqn:Eq; try lia.
  pose proof (digits2_pos_lower qp 24 Hq1) as Dq1.
  pose proof (digits2_pos_upper qp 25 Hq2) as Dq2.
  destruct (binary_round_aux_shape (xorb sa sb) qp (ea - eb - 24) l)
    as (m' & e' & R & C & Hsh); [lia | lia |].
  assert (L : (e' <=? 104) = true) by (apply Z.leb_le; lia).
  exists m', e'. rewrite R. unfold finish. rewrite L. split; [reflexivity|].
  unfold bounded. rewrite C. exact L.
Qed.

(** *** Rounding to nearest even, by arithmetic *)

Lemma iter_pos_nat {A : Type} (f : A -> A) (p : positive) (a : A) :
  SpecFloat.iter_pos f p a = Nat.iter (Pos.to_nat p) f a.
Proof.
  revert a. induction p as [p IH | p IH |]; intros a; cbn [SpecFloat.iter_pos].
  - rewrite !IH, Pos2Nat.inj_xI.
    replace (S (2 * Pos.to_nat p)) with (Pos.to_nat p + S (Pos.to_nat p))%nat by lia.
    rewrite Nat.iter_add, Nat.iter_succ_r. reflexivity.
  - rewrite !IH, Pos2Nat.inj_xO.
    replace (2 * Pos.to_nat p)%nat with (Pos.to_nat p + Pos.to_nat p)%nat by lia.
    rewrite Nat.iter_add. reflexivity.
  - reflexivity.
Qed.

Lemma shr_1_flags (mrs : shr_record) :
  0 <= shr_m mrs ->
  shr_r (shr_1 mrs) = Z.odd (shr_m mrs) /\ shr_s (shr_1 mrs) = shr_r mrs || shr_s mrs.
Proof.
  destruct mrs as [m r s]. cbn [shr_m shr_r shr_s]. intros Hm.
  destruct m as [| [p | p |] | p]; try lia; split; reflexivity.
Qed.

Lemma shr_iter_flags (M : Z) (k : nat) :
  0 <= M ->
  let r := Nat.iter (S k) shr_1 {| shr_m := M; shr_r := false; shr_s := false |} in
  shr_m r = M / 2 ^ Z.of_nat (S k) /\
  shr_r r = Z.odd (M / 2 ^ Z.of_nat k) /\
  shr_s r = negb (M mod 2 ^ Z.of_nat k =? 0).
Proof.
  intros HM. induction k as [| k IH].
  - cbn [Nat.iter nat_rect]. rewrite shr_1_m by exact HM.
    destruct (shr_1_flags {| shr_m := M; shr_r := false; shr_s := false |} HM) as [-> ->].
    cbn [shr_m shr_r shr_s]. change (2 ^ Z.of_nat 0) with 1. change (2 ^ Z.of_nat 1) with 2.
    rewrite Z.div_1_r, Z.mod_1_r. repeat split.
  - cbv zeta in IH |- *. rewrite Nat.iter_succ.
    set (r := Nat.iter (S k) shr_1 _) in *. destruct IH as (Hm & Hr & Hs).
    assert (Pk : 0 < 2 ^ Z.of_nat k) by (apply Z.pow_pos_nonneg; lia).
    assert (E1 : 2 ^ Z.of_nat (S k) = 2 ^ Z.of_nat k * 2).
    { rewrite Nat2Z.inj_succ, Z.pow_succ_r by lia. lia. }
    assert (E2 : 2 ^ Z.of_nat (S (S k)) = 2 ^ Z.of_nat (S k) * 2).
    { rewrite (Nat2Z.inj_succ (S k)), Z.pow_succ_r by lia. lia. }
    assert (Hm0 : 0 <= shr_m r) by (rewrite Hm; apply Z.div_pos; lia).
    rewrite shr_1_m by exact Hm0.
    destruct (shr_1_flags r Hm0) as [-> ->].
    rewrite Hm, Hr, Hs. split; [|split].
    + rewrite E2, <- Z.div_div by lia. reflexivity.
    + reflexivity.
    + rewrite E1, Z.rem_mul_r by lia. rewrite (Zodd_mod (M / 2 ^ Z.of_nat k)).
      pose proof (Z.mod_pos_bound M (2 ^ Z.of_nat k) Pk).
      pose proof (Z.mod_pos_bound (M / 2 ^ Z.of_nat k) 2 ltac:(lia)).
      destruct (Z.eqb_spec ((M / 2 ^ Z.of_nat k) mod 2) 1);
        destruct (Z.eqb_spec (M mod 2 ^ Z.of_nat k) 0);
        destruct (Z.eqb_spec (M mod 2 ^ Z.of_nat k + 2 ^ Z.of_nat k * ((M / 2 ^ Z.of_nat k) mod 2)) 0);
        cbn; try reflexivity; nia.
Qed.

Lemma round_flags (q : Z) (r s : bool) :
  round_nearest_even q (loc_of_shr_record {| shr_m := q; shr_r := r; shr_s := s |}) =
  q + (if r && (s || Z.odd q) then 1 else 0).
Proof.
  rewrite <- Z.negb_even. destruct r, s; cbn; destruct (Z.even q); cbn; lia.
Qed.

(** Shifting a positive mantissa right by [n > 0] bits and rounding. *)
Lemma shr_round (mz np : positive) :
  let mrs := SpecFloat.iter_pos shr_1 np (shr_record_of_loc (Zpos mz) loc_Exact) in
  round_nearest_even (shr_m mrs) (loc_of_shr_record mrs) = round_half_even (Zpos mz) (Zpos np).
Proof.
  cbv zeta. rewrite iter_pos_nat.
  destruct (Pos.to_nat np) as [| k] eqn:E; [lia|].
  cbn [shr_record_of_loc].
  destruct (shr_iter_flags (Zpos mz) k ltac:(lia)) as (Hm & Hr & Hs).
  set (mrs := Nat.iter (S k) shr_1 _) in *.
  destruct mrs as [m r s] eqn:Emrs. cbn [shr_m shr_r shr_s] in *.
  rewrite round_flags. unfold round_half_even.
  assert (En : Zpos np = Z.of_nat (S k)) by lia.
  replace (Zpos np - 1) with (Z.of_nat k) by lia.
  rewrite En, Hm, Hr, Hs. reflexivity.
Qed.

Lemma round_half_even_range (M n : Z) :
  M / 2 ^ n <= round_half_even M n <= M / 2 ^ n + 1.
Proof.
  unfold round_half_even. destruct (_ && _); lia.
Qed.

Lemma round_half_even_mono (M M' n : Z) :
  0 <= M <= M' -> 0 < n -> round_half_even M n <= round_half_even M' n.
Proof.
  intros HM Hn.
  pose proof (round_half_even_range M n) as R. pose proof (round_half_even_range M' n) as R'.
  assert (Ph : 0 < 2 ^ (n - 1)) by (apply Z.pow_pos_nonneg; lia).
  assert (E : 2 ^ n = 2 ^ (n - 1) * 2).
  { replace n with (Z.succ (n - 1)) at 1 by lia. rewrite Z.pow_succ_r by lia. lia. }
  assert (Hq : M / 2 ^ n <= M' / 2 ^ n) by (apply Z.div_le_mono; lia).
  destruct (Z.eq_dec (M / 2 ^ n) (M' / 2 ^ n)) as [Eq | Ne]; [|lia].
  unfold round_half_even in *. rewrite <- Eq in *.
  set (h := 2 ^ (n - 1)) in *.
  assert (D1 : M / 2 ^ n = (M / h) / 2) by (rewrite E, Z.div_div by lia; reflexivity).
  assert (D2 : M' / 2 ^ n = (M' / h) / 2) by (rewrite E, Z.div_div by lia; reflexivity).
  rewrite !(Zodd_mod (M / h)), !(Zodd_mod (M' / h)).
  pose proof (Z.div_mod M h ltac:(lia)). pose proof (Z.div_mod M' h ltac:(lia)).
  pose proof (Z.mod_pos_bound M h Ph). pose proof (Z.mod_pos_bound M' h Ph).
  pose proof (Z.div_mod (M / h) 2 ltac:(lia)). pose proof (Z.div_mod (M' / h) 2 ltac:(lia)).
  pose proof (Z.mod_pos_bound (M / h) 2 ltac:(lia)).
  pose proof (Z.mod_pos_bound (M' / h) 2 ltac:(lia)).
  rewrite D1 in *. rewrite D2 in Eq.
  destruct (Z.eqb_spec ((M / h) mod 2) 1); destruct (Z.eqb_spec ((M' / h) mod 2) 1);
    destruct (Z.eqb_spec (M mod h) 0); destruct (Z.eqb_spec (M' mod h) 0);
    destruct (Z.odd (M / h / 2)); cbn; try lia; nia.
Qed.

(** *** Conversion of integers is monotone *)

Lemma binary_round_int_big (p : positive) :
  2 ^ 24 <= Zpos p < 2 ^ 64 ->
  exists m e,
    binary_round 24 128 false p 0 = S754_finite false m e /\
    2 ^ 23 <= Zpos m < 2 ^ 24 /\
    ((e = Zpos (digits2_pos p) - 24 /\
      Zpos m = round_half_even (Zpos p) (Zpos (digits2_pos p) - 24)) \/
     (e = Zpos (digits2_pos p) - 23 /\ Zpos m = 2 ^ 23 /\
      round_half_even (Zpos p) (Zpos (digits2_pos p) - 24) = 2 ^ 24)).
Proof.
  intros Hp.
  pose proof (digits2_pos_lower p 25 ltac:(change (25 - 1) with 24; lia)) as D1.
  pose proof (digits2_pos_upper p 64 ltac:(lia)) as D2.
  set (d := Zpos (digits2_pos p)) in *.
  unfold binary_round, shl_align. rewrite fexp_eq. fold d.
  assert (Ef : Z.max (d + 0 - 24) (-149) = d - 24) by lia. rewrite Ef.
  destruct (d - 24 - 0) as [| np | np] eqn:En; try lia.
  rewrite binary_round_aux_unfold. unfold shr_fexp. cbn [Zdigits2]. rewrite fexp_eq. fold d.
  rewrite Ef, En. unfold shr. cbn [fst snd].
  rewrite shr_round.
  assert (Enp : Zpos np = d - 24) by lia. rewrite Enp.
  set (m1 := round_half_even (Zpos p) (d - 24)).
  pose proof (round_half_even_range (Zpos p) (d - 24)) as R. fold m1 in R.
  assert (Hq : 2 ^ 23 <= Zpos p / 2 ^ (d - 24) < 2 ^ 24).
  { assert (Hf : 0 <= Z.max (Zpos (digits2_pos p) + 0 - 24) (-149)) by (fold d; lia).
    destruct (quotient_range p 0 Hf) as ([_ Q1] & Q2). fold d in Q1, Q2.
    rewrite Ef, Z.sub_0_r in Q1, Q2. split; [destruct Q2; [lia | assumption] | exact Q1]. }
  destruct (renormalize_cases false m1 (0 + (d - 24)))
    as [[H0 _] | [(m' & Hm' & Hlt & Rn & _) | (H24 & Rn & _)]]; try lia.
  - exists m', (d - 24). rewrite Rn. unfold finish.
    assert (L : (0 + (d - 24) <=? 104) = true) by (apply Z.leb_le; lia). rewrite L.
    split; [f_equal; lia|]. split; [lia|]. left. split; [reflexivity | exact Hm'].
  - exists (2 ^ 23)%positive, (d - 23). rewrite Rn. unfold finish.
    assert (L : (0 + (d - 24) + 1 <=? 104) = true) by (apply Z.leb_le; lia). rewrite L.
    split; [f_equal; lia|]. split; [split; reflexivity|]. right.
    split; [reflexivity|]. split; [reflexivity | exact H24].
Qed.

Lemma digits2_pos_mono (p p' : positive) :
  Zpos p <= Zpos p' -> Zpos (digits2_pos p) <= Zpos (digits2_pos p').
Proof.
  intros H. apply digits2_pos_lower.
  pose proof (digits2_pos_bounds p) as [B _]. lia.
Qed.

Lemma of_Z_mono (z z' : Z) :
  0 < z <= z' -> z' < 2 ^ 64 ->
  exists m e m' e',
    of_Z z = S754_finite false m e /\ of_Z z' = S754_finite false m' e' /\
    2 ^ 23 <= Zpos m < 2 ^ 24 /\ 2 ^ 23 <= Zpos m' < 2 ^ 24 /\
    -23 <= e <= 41 /\ -23 <= e' <= 41 /\
    (e < e' \/ (e = e' /\ Zpos m <= Zpos m')).
Proof.
  intros Hz Hz'.
  destruct (Z_lt_le_dec z' (2 ^ 24)) as [S' | B'].
  - (* both are converted exactly *)
    destruct (of_Z_small z) as (m & e & E & Hm & He & Em); [lia|].
    destruct (of_Z_small z') as (m' & e' & E' & Hm' & He' & Em'); [lia|].
    exists m, e, m', e'. repeat (split; [first [assumption | lia]|]).
    apply (of_Z_small_mono z z'); auto; lia.
  - destruct z' as [| p' | p']; try lia.
    destruct (binary_round_int_big p' ltac:(lia)) as (m' & e' & E' & Hm' & Hc').
    pose proof (digits2_pos_lower p' 25 ltac:(change (25 - 1) with 24; lia)) as D1'.
    pose proof (digits2_pos_upper p' 64 ltac:(lia)) as D2'.
    destruct (Z_lt_le_dec z (2 ^ 24)) as [S | B].
    + destruct (of_Z_small z) as (m & e & E & Hm & He & Em); [lia|].
      exists m, e, m', e'. split; [exact E|]. split; [exact E'|].
      repeat (split; [first [assumption | lia]|]). left. lia.
    + destruct z as [| p | p]; try lia.
      destruct (binary_round_int_big p ltac:(lia)) as (m & e & E & Hm & Hc).
      pose proof (digits2_pos_lower p 25 ltac:(change (25 - 1) with 24; lia)) as D1.
      pose proof (digits2_pos_mono p p' ltac:(lia)) as Dm.
      exists m, e, m', e'. split; [exact E|]. split; [exact E'|].
      repeat (split; [first [assumption | lia]|]).
      destruct (Z.eq_dec (Zpos (digits2_pos p)) (Zpos (digits2_pos p'))) as [Ed | Nd].
      * pose proof (round_half_even_mono (Zpos p) (Zpos p') (Zpos (digits2_pos p) - 24)
                      ltac:(lia) ltac:(lia)) as Hmono.
        rewrite <- Ed in Hc'. lia.
      * lia.
Qed.

End F32Facts.

(** * The evaluator and the tessellator *)

Local Open Scope nat_scope.

(** ** Counted loops *)

Lemma for_each_seq_inv {A : Type} (body : nat -> A -> option A) (P : nat -> A -> Prop)
  (len lo : nat) (a : A) :
  P lo a ->
  (forall i b, lo <= i < lo + len -> P i b -> exists b', body i b = Some b' /\ P (S i) b') ->
  exists a', for_each body (seq lo len) a = Some a' /\ P (lo + len) a'.
Proof.
  revert lo a. induction len as [| len IH]; intros lo a Ha Hstep; cbn [seq for_each].
  - exists a. rewrite Nat.add_0_r. auto.
  - destruct (Hstep lo a ltac:(lia) Ha) as (b & -> & Hb). cbn.
    destruct (IH (S lo) b Hb) as (a' & Ha' & HP).
    + intros i c Hi. apply Hstep. lia.
    + exists a'. split; [exact Ha'|]. replace (lo + S len) with (S lo + len) by lia. exact HP.
Qed.

(** ** The evaluator computes the scheme of de Casteljau *)

Lemma lookup_map {A B : Type} (f : A -> B) (l : list A) (i : nat) :
  map f l !! i = f <$> (l !! i).
Proof.
  revert i. induction l as [| a l IH]; intros [| i]; cbn; auto.
Qed.

Lemma casteljau_is_Some (t : float) (points : list vec2) (k i : nat) :
  i + k < length points -> is_Some (casteljau t points k i).
Proof.
  revert i. induction k as [| k IH]; intros i Hi; cbn [casteljau].
  - apply lookup_lt_is_Some. lia.
  - destruct (IH i ltac:(lia)) as [p ->]. destruct (IH (i + 1) ltac:(lia)) as [q ->].
    cbn. eauto.
Qed.

Lemma bezier_round_spec (t : float) (points0 points : list vec2) (k : nat) :
  length points = length points0 ->
  (forall i, i + k < length points0 -> points !! i = casteljau t points0 k i) ->
  exists points',
    bezier_round t (length points0) k points = Some points' /\
    length points' = length points0 /\
    (forall i, i + S k < length points0 -> points' !! i = casteljau t points0 (S k) i).
Proof.
  intros Hlen Hinv. unfold bezier_round.
  set (n := length points0) in *.
  destruct (for_each_seq_inv (bezier_step t)
              (fun j pts =>
                 length pts = n /\
                 (forall i, i < j -> i + S k < n -> pts !! i = casteljau t points0 (S k) i) /\
                 (forall i, j <= i -> i + k < n -> pts !! i = casteljau t points0 k i))
              (n - (k + 1)) 0 points) as (points' & Hrun & Hl & Hnew & _).
  - split; [exact Hlen|]. split; [intros; lia | intros; auto].
  - intros j pts Hj (Hl & Hnew & Hold).
    destruct (casteljau_is_Some t points0 k j ltac:(lia)) as [p Hp].
    destruct (casteljau_is_Some t points0 k (j + 1) ltac:(lia)) as [q Hq].
    unfold bezier_step.
    rewrite (Hold j), Hp by lia. cbn.
    rewrite (Hold (j + 1)), Hq by lia. cbn.
    eexists. split; [reflexivity|].
    split; [rewrite length_insert; exact Hl|]. split.
    + intros i Hi Hin. destruct (Nat.eq_dec i j) as [-> | Hne].
      * rewrite list_lookup_insert_eq by lia. cbn [casteljau]. rewrite Hp, Hq. reflexivity.
      * rewrite list_lookup_insert_ne by lia. apply Hnew; lia.
    + intros i Hi Hin. rewrite list_lookup_insert_ne by lia. apply Hold; lia.
  - exists points'. split; [exact Hrun|]. split; [exact Hl|].
    intros i Hi. apply Hnew; cbn; lia.
Qed.

Lemma bezier_casteljau (vertices : list vertex) (t : float) :
  vertices <> [] ->
  bezier vertices t = casteljau t (map position vertices) (length vertices - 1) 0.
Proof.
  intros Hne. unfold bezier.
  set (points0 := map position vertices).
  assert (Hn : length points0 = length vertices) by apply length_map.
  assert (Hpos : 0 < length vertices) by (destruct vertices; [congruence | cbn; lia]).
  rewrite <- Hn.
  destruct (for_each_seq_inv (bezier_round t (length points0))
              (fun k pts =>
                 length pts = length points0 /\
                 (forall i, i + k < length points0 -> pts !! i = casteljau t points0 k i))
              (length points0 - 1) 0 points0) as (points' & Hrun & Hl & Hinv).
  - split; [reflexivity | intros; reflexivity].
  - intros k pts Hk (Hl & Hinv).
    destruct (bezier_round_spec t points0 pts k Hl Hinv) as (pts' & Hr & Hl' & Hinv').
    exists pts'. split; [exact Hr|]. split; assumption.
  - rewrite Hrun. cbn. apply Hinv. lia.
Qed.

Lemma bezier_empty (t : float) : bezier [] t = None.
Proof. reflexivity. Qed.

Lemma bezier_is_Some (vertices : list vertex) (t : float) :
  vertices <> [] -> is_Some (bezier vertices t).
Proof.
  intros Hne. rewrite bezier_casteljau by exact Hne.
  apply casteljau_is_Some. rewrite length_map.
  destruct vertices; [congruence | cbn; lia].
Qed.

Lemma bezier_single (v : vertex) (t : float) : bezier [v] t = Some (position v).
Proof. reflexivity. Qed.

(** At the ends of the parameter range every level of the scheme repeats
    control points, provided their coordinates are regular numbers. *)



Create HintDb f32 discriminated.
#[local] Hint Resolve F32Facts.regular_valid F32Facts.regular_finite : f32.

Lemma lerp_zero (p q : vec2) :
  regular_point p -> regular_point q -> lerp F32.zero p q = p.
Proof.
  intros [Hx Hy] [Hx' Hy']. destruct p as [px py]; destruct q as [qx qy]. cbn in *.
  unfold lerp; cbn [x y].
  rewrite !F32Facts.interpolate_zero by auto with f32. reflexivity.
Qed.

Lemma lerp_one (p q : vec2) :
  regular_point p -> regular_point q -> lerp F32.one p q = q.
Proof.
  intros [Hx Hy] [Hx' Hy']. destruct p as [px py]; destruct q as [qx qy]. cbn in *.
  unfold lerp; cbn [x y].
  rewrite !F32Facts.interpolate_one by auto with f32. reflexivity.
Qed.

Lemma casteljau_zero (points : list vec2) (k i : nat) :
  Forall regular_point points -> i + k < length points ->
  casteljau F32.zero points k i = points !! i.
Proof.
  intros Hreg. revert i. induction k as [| k IH]; intros i Hi; cbn [casteljau]; [reflexivity|].
  rewrite (IH i), (IH (i + 1)) by lia.
  destruct (lookup_lt_is_Some_2 points i ltac:(lia)) as [p Hp].
  destruct (lookup_lt_is_Some_2 points (i + 1) ltac:(lia)) as [q Hq].
  rewrite Hp, Hq. cbn. f_equal.
  apply lerp_zero; eapply Forall_lookup_1; eauto.
Qed.

Lemma casteljau_one (points : list vec2) (k i : nat) :
  Forall regular_point points -> i + k < length points ->
  casteljau F32.one points k i = points !! (i + k).
Proof.
  intros Hreg. revert i. induction k as [| k IH]; intros i Hi; cbn [casteljau].
  - rewrite Nat.add_0_r. reflexivity.
  - rewrite (IH i), (IH (i + 1)) by lia.
    destruct (lookup_lt_is_Some_2 points (i + k) ltac:(lia)) as [p Hp].
    destruct (lookup_lt_is_Some_2 points (i + 1 + k) ltac:(lia)) as [q Hq].
    rewrite Hp, Hq. cbn. replace (i + S k) with (i + 1 + k) by lia. rewrite Hq. f_equal.
    apply lerp_one; eapply Forall_lookup_1; eauto.
Qed.

(** ** The tessellation loop *)

Lemma sample_count_nil (q : Z) : sample_count [] q = 0%Z.
Proof. reflexivity. Qed.

Lemma sample_count_range (pts : list vertex) (q : Z) :
  (0 <= sample_count pts q < 2 ^ 64)%Z.
Proof. unfold sample_count, wrap, size_max. apply Z.mod_pos_bound. lia. Qed.

Lemma sample_count_exact (pts : list vertex) (q : Z) :
  (0 <= q)%Z -> (Z.of_nat (length pts) * q < 2 ^ 64)%Z ->
  sample_count pts q = (Z.of_nat (length pts) * q)%Z.
Proof.
  intros Hq Hlt. unfold sample_count, wrap, size_max. apply Z.mod_small. lia.
Qed.

Section TessellatorFacts.

Variable hypot : float -> float -> float.

Lemma tessellate_spec (pts : list vertex) (q : Z) (out : list float) :
  exists spline,
    tessellate hypot pts q out = Some (spline, out ++ map dist spline) /\
    length spline = Z.to_nat (sample_count pts q) /\
    samples_of pts (sample_count pts q) spline /\
    arc_lengths_of hypot spline.
Proof.
  unfold tessellate. set (N := sample_count pts q).
  assert (Hne : pts <> [] \/ Z.to_nat N = 0).
  { destruct pts; [right; reflexivity | left; congruence]. }
  destruct (for_each_seq_inv (spline_step hypot pts N)
              (fun i acc =>
                 length acc.1 = i /\ acc.2 = out ++ map dist acc.1 /\
                 samples_of pts N acc.1 /\ arc_lengths_of hypot acc.1)
              (Z.to_nat N) 0 ([], out)) as ([spline out'] & Hrun & Hl & Hout & Hs & Ha).
  - cbn. split; [reflexivity|]. split; [rewrite app_nil_r; reflexivity|].
    split; [intros i v H; discriminate|]. split; intros; discriminate.
  - intros i [spline out'] Hi (Hl & Hout & Hs & [Ha0 Ha]). cbn [fst snd] in *.
    destruct Hne as [Hne | Hz]; [|lia].
    destruct (bezier_is_Some pts (sample_parameter N i) Hne) as [part Hpart].
    unfold spline_step. rewrite Hpart. cbn [fst snd mbind option_bind].
    eexists. split; [reflexivity|]. cbn [fst snd].
    set (v := BezierVertex (Vertex part spline_color) (next_dist hypot spline part)).
    split; [rewrite length_app; cbn; lia|].
    split; [rewrite Hout, map_app, <- app_assoc; reflexivity|].
    split; [|split].
    + intros j w Hw. apply lookup_snoc_Some in Hw as [[Hj Hw] | [-> <-]].
      * apply (Hs j w Hw).
      * rewrite Hl. split; [reflexivity | exact Hpart].
    + intros w Hw. apply lookup_snoc_Some in Hw as [[Hj Hw] | [H0 <-]].
      * apply Ha0, Hw.
      * assert (spline = []) as -> by (destruct spline; [reflexivity | discriminate]).
        reflexivity.
    + intros j a b Hja Hjb.
      apply lookup_snoc_Some in Hjb as [[Hj Hjb] | [Hj <-]].
      * rewrite lookup_app_l in Hja by lia. apply (Ha j a b Hja Hjb).
      * rewrite lookup_app_l in Hja by lia.
        subst v. cbn [dist base position]. unfold next_dist.
        rewrite last_lookup, <- Hj. cbn [Nat.pred]. rewrite Hja. reflexivity.
  - cbn [fst snd] in *. exists spline. rewrite Hrun, Hout.
    split; [reflexivity|]. split; [lia|]. split; assumption.
Qed.

Lemma update_bezier_spec (s : state) :
  exists spline,
    update_bezier hypot s =
      Some {| bezier_pts := bezier_pts s;
              bezier_spline := spline;
              quality := quality s;
              vbo_pts := bezier_pts s;
              vbo_spline := spline;
              cout := cout s ++ map dist spline |} /\
    length spline = Z.to_nat (sample_count (bezier_pts s) (quality s)) /\
    samples_of (bezier_pts s) (sample_count (bezier_pts s) (quality s)) spline /\
    arc_lengths_of hypot spline.
Proof.
  destruct (tessellate_spec (bezier_pts s) (quality s) (cout s)) as (spline & Ht & Hrest).
  exists spline. split; [|exact Hrest].
  unfold update_bezier. rewrite Ht. reflexivity.
Qed.

End TessellatorFacts.

(** ** The rounds of the design document *)

Lemma casteljau_round_lookup (t : float) (points : list vec2) (i : nat) :
  casteljau_round t points !! i =
  (p ← points !! i; q ← points !! (i + 1); Some (lerp_spec t p q)).
Proof.
  revert i. induction points as [| p [| q rest] IH]; intros i.
  - reflexivity.
  - destruct i; reflexivity.
  - destruct i as [| i]; [reflexivity|].
    change (casteljau_round t (p :: q :: rest) !! S i) with (casteljau_round t (q :: rest) !! i).
    rewrite IH. reflexivity.
Qed.

Lemma casteljau_round_length (t : float) (points : list vec2) :
  length (casteljau_round t points) = length points - 1.
Proof.
  induction points as [| p [| q rest] IH]; [reflexivity | reflexivity |].
  change (casteljau_round t (p :: q :: rest))
    with (lerp_spec t p q :: casteljau_round t (q :: rest)).
  cbn [length] in *. lia.
Qed.

Lemma lerp_spec_eq (t : float) (p q : vec2) : lerp_spec t p q = lerp t p q.
Proof.
  unfold lerp_spec, lerp.
  rewrite (F32Facts.mul_comm (F32.one - t)%f32 (x p)), (F32Facts.mul_comm t (x q)),
          (F32Facts.mul_comm (F32.one - t)%f32 (y p)), (F32Facts.mul_comm t (y q)).
  reflexivity.
Qed.

Lemma iter_rounds_lookup (t : float) (points : list vec2) (k i : nat) :
  Nat.iter k (casteljau_round t) points !! i = casteljau t points k i.
Proof.
  revert i. induction k as [| k IH]; intros i; [reflexivity|].
  rewrite Nat.iter_succ. cbn [casteljau]. rewrite casteljau_round_lookup, !IH.
  destruct (casteljau t points k i) as [p |]; [|reflexivity].
  destruct (casteljau t points k (i + 1)) as [q |]; [|reflexivity].
  cbn. rewrite lerp_spec_eq. reflexivity.
Qed.

Lemma iter_rounds_length (t : float) (points : list vec2) (k : nat) :
  length (Nat.iter k (casteljau_round t) points) = length points - k.
Proof.
  induction k as [| k IH]; [cbn; lia|].
  rewrite Nat.iter_succ, casteljau_round_length, IH. lia.
Qed.

(** The spline does not depend on the text stream it is logged to. *)
Lemma spline_step_eq (hypot : float -> float -> float)
  (pts : list vertex) (N : Z) (i : nat) (spline : list bezier_vertex) (out : list float) :
  spline_step hypot pts N i (spline, out) =
  match bezier pts (sample_parameter N i) with
  | Some part =>
      Some (spline ++ [BezierVertex (Vertex part spline_color) (next_dist hypot spline part)],
            out ++ [next_dist hypot spline part])
  | None => None
  end.
Proof.
  unfold spline_step. destruct (bezier pts (sample_parameter N i)); reflexivity.
Qed.

Lemma for_each_spline_independent (hypot : float -> float -> float)
  (pts : list vertex) (N : Z) (indices : list nat)
  (spline : list bezier_vertex) (out1 out2 : list float)
  (r1 r2 : list bezier_vertex * list float) :
  for_each (spline_step hypot pts N) indices (spline, out1) = Some r1 ->
  for_each (spline_step hypot pts N) indices (spline, out2) = Some r2 ->
  r1.1 = r2.1.
Proof.
  revert spline out1 out2.
  induction indices as [| i rest IH]; intros spline out1 out2; cbn [for_each].
  - intros H1 H2. injection H1 as <-. injection H2 as <-. reflexivity.
  - rewrite !spline_step_eq.
    destruct (bezier pts (sample_parameter N i)) as [part |]; simpl;
      [apply IH | intros H; discriminate H].
Qed.

(** Samples that all sit on one finite point have arc length zero. *)
Lemma coincident_samples_dist (hypot : float -> float -> float)
  (p : vec2) (spline : list bezier_vertex) :
  (forall a s, F32.valid a = true -> hypot a (S754_zero s) = SFabs a) ->
  finite_point p ->
  arc_lengths_of hypot spline ->
  (forall i w, spline !! i = Some w -> position (base w) = p) ->
  forall i w, spline !! i = Some w -> dist w = F32.zero.
Proof.
  intros Hlaw [Fx Fy] [H0 Hstep] Hpos. induction i as [| i IH]; intros w Hw.
  - apply H0, Hw.
  - destruct (lookup_lt_is_Some_2 spline i) as [a Ha].
    { apply lookup_lt_Some in Hw. lia. }
    rewrite (Hstep i a w Ha Hw), (IH a Ha), (Hpos i a Ha), (Hpos (S i) w Hw).
    rewrite !F32Facts.sub_diag by assumption.
    unfold F32.zero at 1 2. rewrite Hlaw by reflexivity. reflexivity.
Qed.

(** ** The parameter of the first and of the last sample *)

Lemma wrap_small (n : Z) : (0 <= n < 2 ^ 64)%Z -> wrap n = n.
Proof. intros H. unfold wrap, size_max. apply Z.mod_small. exact H. Qed.

(** With a single sample the parameter is [0 / 0]. *)
Lemma sample_parameter_single : F32.is_nan (sample_parameter 1 0) = true.
Proof. reflexivity. Qed.

Lemma sample_parameter_first (N : Z) :
  (2 <= N < 2 ^ 64)%Z -> sample_parameter N 0 = F32.zero.
Proof.
  intros HN. unfold sample_parameter. rewrite wrap_small by lia.
  destruct (F32Facts.of_Z_pos (N - 1)) as (m & e & -> & _); [lia|]. reflexivity.
Qed.

Lemma sample_parameter_last (N : Z) :
  (2 <= N < 2 ^ 64)%Z -> sample_parameter N (Z.to_nat N - 1) = F32.one.
Proof.
  intros HN. unfold sample_parameter. rewrite wrap_small by lia.
  replace (Z.of_nat (Z.to_nat N - 1)) with (N - 1)%Z by lia.
  destruct (F32Facts.of_Z_pos (N - 1)) as (m & e & -> & _); [lia|].
  apply F32Facts.div_diag.
Qed.

(** ** Arc lengths are well-formed numbers with a clear sign bit *)

Lemma arc_lengths_wf (hypot : float -> float -> float) (spline : list bezier_vertex) :
  (forall a b, F32.valid (hypot a b) = true) ->
  (forall a b, F32.sign_clear (hypot a b) = true) ->
  arc_lengths_of hypot spline ->
  forall i w, spline !! i = Some w ->
    F32.valid (dist w) = true /\ F32.sign_clear (dist w) = true.
Proof.
  intros Hv Hs [H0 Hstep]. induction i as [| i IH]; intros w Hw.
  - rewrite (H0 w Hw). split; reflexivity.
  - destruct (lookup_lt_is_Some_2 spline i) as [a Ha].
    { apply lookup_lt_Some in Hw. lia. }
    destruct (IH a Ha) as [Va Sa]. rewrite (Hstep i a w Ha Hw).
    set (h := hypot _ _).
    destruct (F32Facts.add_sign_clear h (dist a) (Hv _ _) Va (Hs _ _) Sa) as (V & S & _).
    split; assumption.
Qed.

Lemma arc_lengths_not_nan (hypot : float -> float -> float) (spline : list bezier_vertex) :
  (forall a b, F32.valid (hypot a b) = true) ->
  (forall a b, F32.sign_clear (hypot a b) = true) ->
  (forall a b, F32.is_nan (hypot a b) = true -> F32.is_nan a = true \/ F32.is_nan b = true) ->
  arc_lengths_of hypot spline ->
  (forall w, w ∈ spline -> finite_point (position (base w))) ->
  forall i w, spline !! i = Some w -> F32.is_nan (dist w) = false.
Proof.
  intros Hv Hs Hn Harc Hfin.
  pose proof (arc_lengths_wf hypot spline Hv Hs Harc) as Hwf.
  destruct Harc as [H0 Hstep]. induction i as [| i IH]; intros w Hw.
  - rewrite (H0 w Hw). reflexivity.
  - destruct (lookup_lt_is_Some_2 spline i) as [a Ha].
    { apply lookup_lt_Some in Hw. lia. }
    destruct (Hwf i a Ha) as [Va Sa]. rewrite (Hstep i a w Ha Hw).
    destruct (Hfin a) as [Fax Fay]; [apply list_elem_of_lookup; eauto|].
    destruct (Hfin w) as [Fwx Fwy]; [apply list_elem_of_lookup; eauto|].
    set (h := hypot _ _).
    assert (Hh : F32.is_nan h = false).
    { destruct (F32.is_nan h) eqn:E; [|reflexivity].
      apply Hn in E as [E | E]; rewrite F32Facts.sub_finite_not_nan in E by assumption;
        discriminate. }
    destruct (F32Facts.add_sign_clear h (dist a) (Hv _ _) Va (Hs _ _) Sa) as (_ & _ & _ & Hnn).
    apply Hnn; [exact Hh | apply (IH a Ha)].
Qed.

(** ** Events and the quality value *)

Lemma update_bezier_quality (hypot : float -> float -> float) (s s' : state) :
  update_bezier hypot s = Some s' -> quality s' = quality s.
Proof.
  destruct (update_bezier_spec hypot s) as (spline & -> & _). intros [= <-]. reflexivity.
Qed.

Lemma handle_event_quality (hypot : float -> float -> float) (e : event) (s s' : state) :
  handle_event hypot e s = Some s' ->
  (1 <= quality s)%Z -> (quality s + 1 < 2 ^ 64)%Z ->
  (1 <= quality s' <= quality s + 1)%Z.
Proof.
  intros He Hlo Hhi.
  destruct e as [[] mx my | [] |]; cbn [handle_event] in He.
  - apply update_bezier_quality in He. cbn in He. lia.
  - destruct (bezier_pts s); [injection He as <-; lia|].
    apply update_bezier_quality in He. cbn in He. lia.
  - injection He as <-; lia.
  - destruct (1 <? quality s)%Z eqn:E; [|injection He as <-; lia].
    apply Z.ltb_lt in E. apply update_bezier_quality in He. cbn in He.
    rewrite wrap_small in He by lia. lia.
  - apply update_bezier_quality in He. cbn in He. rewrite wrap_small in He by lia. lia.
  - injection He as <-; lia.
  - injection He as <-; lia.
Qed.

Lemma run_quality (hypot : float -> float -> float) (es : list event) (s s' : state) :
  run hypot es s = Some s' ->
  (1 <= quality s)%Z -> (quality s + Z.of_nat (length es) < 2 ^ 64)%Z ->
  (1 <= quality s' <= quality s + Z.of_nat (length es))%Z.
Proof.
  revert s. induction es as [| e es IH]; intros s Hrun Hlo Hhi; cbn [run] in Hrun.
  - injection Hrun as <-. cbn. lia.
  - cbn [length] in Hhi.
    destruct (handle_event hypot e s) as [s1 |] eqn:He; [|discriminate]. cbn in Hrun.
    pose proof (handle_event_quality hypot e s s1 He Hlo ltac:(lia)) as H1.
    pose proof (IH s1 Hrun ltac:(lia) ltac:(lia)) as H2. cbn [length]. lia.
Qed.

Lemma run_decrease (hypot : float -> float -> float) (n : nat) (s : state) :
  (1 <= quality s < 2 ^ 64)%Z ->
  exists s',
    run hypot (repeat (KeyDown KeyLeft) n) s = Some s' /\
    quality s' = Z.max 1 (quality s - Z.of_nat n).
Proof.
  revert s. induction n as [| n IH]; intros s Hq; cbn [repeat run].
  - exists s. split; [reflexivity | lia].
  - cbn [handle_event]. destruct (1 <? quality s)%Z eqn:E.
    + apply Z.ltb_lt in E.
      destruct (update_bezier_spec hypot (with_quality s (wrap (quality s - 1))))
        as (spline & Hu & _).
      rewrite Hu. cbn [mbind option_bind].
      match goal with |- context [run hypot _ ?s1] => destruct (IH s1) as (s' & Hr & Hq') end.
      { cbn. rewrite wrap_small by lia. lia. }
      exists s'. split; [exact Hr|]. rewrite Hq'. cbn. rewrite wrap_small by lia. lia.
    + apply Z.ltb_ge in E. cbn [mbind option_bind].
      destruct (IH s Hq) as (s' & Hr & Hq'). exists s'. split; [exact Hr | lia].
Qed.

(** ** Control points built by the main loop are regular *)

Lemma update_bezier_pts (hypot : float -> float -> float) (s s' : state) :
  update_bezier hypot s = Some s' -> bezier_pts s' = bezier_pts s.
Proof.
  destruct (update_bezier_spec hypot s) as (spline & -> & _). intros [= <-]. reflexivity.
Qed.

Lemma pt_regular (a b : Z) : int_range a -> int_range b -> regular_vertex (pt a b).
Proof.
  unfold int_range. intros Ha Hb. split; cbn [pt position x y]; apply F32Facts.of_Z_regular; lia.
Qed.

Lemma handle_event_regular (hypot : float -> float -> float) (e : event) (s s' : state) :
  event_in_range e -> Forall regular_vertex (bezier_pts s) ->
  handle_event hypot e s = Some s' -> Forall regular_vertex (bezier_pts s').
Proof.
  intros He Hreg Hs.
  destruct e as [[] mx my | [] |]; cbn [handle_event event_in_range] in He, Hs;
    try (injection Hs as <-; exact Hreg).
  - apply update_bezier_pts in Hs. rewrite Hs. cbn [with_pts bezier_pts].
    apply Forall_app. split; [exact Hreg|]. constructor; [|constructor].
    destruct He. apply (pt_regular mx my); assumption.
  - destruct (bezier_pts s) as [| v rest] eqn:E; [injection Hs as <-; rewrite E; constructor|].
    apply update_bezier_pts in Hs. rewrite Hs. cbn [with_pts bezier_pts].
    unfold pop_back. rewrite removelast_firstn_len. apply Forall_take, Hreg.
  - destruct (1 <? quality s)%Z; [|injection Hs as <-; exact Hreg].
    apply update_bezier_pts in Hs. rewrite Hs. exact Hreg.
  - apply update_bezier_pts in Hs. rewrite Hs. exact Hreg.
Qed.

Lemma run_regular (hypot : float -> float -> float) (es : list event) (s s' : state) :
  Forall event_in_range es -> Forall regular_vertex (bezier_pts s) ->
  run hypot es s = Some s' -> Forall regular_vertex (bezier_pts s').
Proof.
  intros Hes. revert s. induction Hes as [| e es He Hes IH]; intros s Hreg Hrun; cbn [run] in Hrun.
  - injection Hrun as <-. exact Hreg.
  - destruct (handle_event hypot e s) as [s1 |] eqn:E; [|discriminate]. cbn in Hrun.
    apply (IH s1); [|exact Hrun]. exact (handle_event_regular hypot e s s1 He Hreg E).
Qed.

(** * Properties of the curve core *)

Local Open Scope Z_scope.

(** ** Sample density *)

(** C6. Whenever the product of the number of control points and the
    quality exceeds 1 (and fits [size_t]), the rebuilt spline has exactly
    that many samples. *)
Theorem spline_length (hypot : float -> float -> float) (s : state) :
  1 < Z.of_nat (length (bezier_pts s)) * quality s < 2 ^ 64 ->
  exists s',
    update_bezier hypot s = Some s' /\
    Z.of_nat (length (bezier_spline s')) = Z.of_nat (length (bezier_pts s)) * quality s.
Proof.
  intros H.
  destruct (update_bezier_spec hypot s) as (spline & Hu & Hl & _).
  eexists. split; [exact Hu|]. cbn [bezier_spline].
  rewrite Hl, sample_count_exact by nia. lia.
Qed.

Lemma spline_length_witness :
  1 < Z.of_nat (length (bezier_pts (st [pt 0 0; pt 100 0; pt 100 100] 4)))
      * quality (st [pt 0 0; pt 100 0; pt 100 100] 4) < 2 ^ 64 /\
  exists s',
    update_bezier F32.hypot_ref (st [pt 0 0; pt 100 0; pt 100 100] 4) = Some s' /\
    Z.of_nat (length (bezier_spline s')) = 12.
Proof.
  split; [cbn; lia|].
  apply (spline_length F32.hypot_ref (st [pt 0 0; pt 100 0; pt 100 100] 4)).
  cbn; lia.
Defined.

(** ** The evaluator is only reached with control points *)

Lemma update_bezier_is_Some (hypot : float -> float -> float) (s : state) :
  is_Some (update_bezier hypot s).
Proof. destruct (update_bezier_spec hypot s) as (spline & -> & _). eauto. Qed.

Lemma handle_event_is_Some (hypot : float -> float -> float) (e : event) (s : state) :
  is_Some (handle_event hypot e s).
Proof.
  destruct e as [[] mx my | [] |]; cbn [handle_event];
    try apply update_bezier_is_Some; eauto.
  - destruct (bezier_pts s); [eauto | apply update_bezier_is_Some].
  - destruct (1 <? quality s); [apply update_bezier_is_Some | eauto].
Qed.

Lemma run_is_Some (hypot : float -> float -> float) (es : list event) (s : state) :
  is_Some (run hypot es s).
Proof.
  revert s. induction es as [| e es IH]; intros s; cbn [run]; [eauto|].
  destruct (handle_event_is_Some hypot e s) as [s' ->]. cbn. apply IH.
Qed.

(** C9. The unguarded read of [bezier] on an empty vector is never reached:
    with no control points the sample count is 0 and the loop body does not
    run; every iteration that does run evaluates a non-empty list; no
    sequence of events makes the program read out of bounds. *)
Theorem bezier_never_called_on_empty (hypot : float -> float -> float) :
  (forall t, bezier [] t = None) /\
  (forall s, bezier_pts s = [] ->
     sample_count (bezier_pts s) (quality s) = 0 /\
     update_bezier hypot s =
       Some {| bezier_pts := []; bezier_spline := []; quality := quality s;
               vbo_pts := []; vbo_spline := []; cout := cout s |}) /\
  (forall s i, (i < Z.to_nat (sample_count (bezier_pts s) (quality s)))%nat ->
     bezier_pts s <> [] /\
     is_Some (bezier (bezier_pts s)
                (sample_parameter (sample_count (bezier_pts s) (quality s)) i))) /\
  (forall s, is_Some (update_bezier hypot s)) /\
  (forall es s, is_Some (run hypot es s)).
Proof.
  split; [reflexivity|]. split; [|split; [|split]].
  - intros s Hs. unfold update_bezier, tessellate. rewrite Hs. split; reflexivity.
  - intros s i Hi.
    assert (Hne : bezier_pts s <> []).
    { intros Hs. rewrite Hs, sample_count_nil in Hi. cbn in Hi. lia. }
    split; [exact Hne | apply bezier_is_Some, Hne].
  - apply update_bezier_is_Some.
  - apply run_is_Some.
Qed.

(** ** Frame *)

(** C10. [update_bezier] always returns; it keeps the control points and the
    quality, replaces the spline by one computed from the control points and
    the quality alone (whatever the spline held before), uploads both
    vectors, and appends the arc lengths to the text stream. *)
Theorem update_bezier_frame (hypot : float -> float -> float) (s : state) :
  exists s',
    update_bezier hypot s = Some s' /\
    bezier_pts s' = bezier_pts s /\
    quality s' = quality s /\
    vbo_pts s' = bezier_pts s /\
    vbo_spline s' = bezier_spline s' /\
    cout s' = cout s ++ map dist (bezier_spline s') /\
    (forall s2, bezier_pts s2 = bezier_pts s -> quality s2 = quality s ->
       bezier_spline <$> update_bezier hypot s2 = Some (bezier_spline s')).
Proof.
  destruct (update_bezier_spec hypot s) as (spline & Hu & _).
  eexists. split; [exact Hu|]. cbn [bezier_pts quality vbo_pts vbo_spline bezier_spline cout].
  repeat (split; [reflexivity|]).
  intros s2 Hp Hq.
  destruct (tessellate_spec hypot (bezier_pts s) (quality s) (cout s)) as (sp1 & H1 & _).
  destruct (tessellate_spec hypot (bezier_pts s) (quality s) (cout s2)) as (sp2 & H2 & _).
  unfold update_bezier in Hu |- *. rewrite Hp, Hq, H2. rewrite H1 in Hu. cbn in Hu |- *.
  injection Hu as <-. f_equal.
  unfold tessellate in H1, H2.
  exact (for_each_spline_independent hypot _ _ _ _ _ _ _ _ H2 H1).
Qed.

(** ** Degenerate control-point lists *)

(** C1, as the program behaves. With no control point the rebuilt spline is
    empty. With exactly one control point it is not: it holds [quality]
    samples, all at that point (and all with arc length 0 when the point is
    finite and [hypot (x, 0) = |x|]). *)
Theorem rebuild_degenerate (hypot : float -> float -> float) (s : state) :
  1 <= quality s < 2 ^ 64 ->
  (bezier_pts s = [] -> bezier_spline <$> update_bezier hypot s = Some []) /\
  (forall v, bezier_pts s = [v] ->
     exists spline,
       bezier_spline <$> update_bezier hypot s = Some spline /\
       Z.of_nat (length spline) = quality s /\
       (forall w, w ∈ spline ->
          position (base w) = position v /\ color (base w) = spline_color) /\
       ((forall a sg, F32.valid a = true -> hypot a (S754_zero sg) = SFabs a) ->
        finite_point (position v) ->
        forall w, w ∈ spline -> dist w = F32.zero)).
Proof.
  intros Hq. split.
  - intros Hs. unfold update_bezier, tessellate. rewrite Hs. reflexivity.
  - intros v Hs.
    destruct (update_bezier_spec hypot s) as (spline & Hu & Hl & Hsam & Harc).
    rewrite Hs in Hl, Hsam.
    assert (Hpos : forall i w, spline !! i = Some w -> position (base w) = position v).
    { intros i w Hw. destruct (Hsam i w Hw) as [_ Hb].
      rewrite bezier_single in Hb. injection Hb as <-. reflexivity. }
    exists spline. rewrite Hu. split; [reflexivity|]. split; [|split].
    + rewrite Hl, sample_count_exact by (cbn [length]; lia). cbn [length]. lia.
    + intros w Hw. apply list_elem_of_lookup in Hw as [i Hw].
      split; [exact (Hpos i w Hw) | exact (proj1 (Hsam i w Hw))].
    + intros Hlaw Hfin w Hw. apply list_elem_of_lookup in Hw as [i Hw].
      exact (coincident_samples_dist hypot (position v) spline Hlaw Hfin Harc Hpos i w Hw).
Qed.

Lemma rebuild_degenerate_witness :
  1 <= quality (st [pt 5 7] 3) < 2 ^ 64 /\
  exists spline,
    bezier_spline <$> update_bezier F32.hypot_ref (st [pt 5 7] 3) = Some spline /\
    Z.of_nat (length spline) = 3 /\
    (forall w, w ∈ spline ->
       position (base w) = position (pt 5 7) /\ color (base w) = spline_color) /\
    ((forall a sg, F32.valid a = true -> F32.hypot_ref a (S754_zero sg) = SFabs a) ->
     finite_point (position (pt 5 7)) ->
     forall w, w ∈ spline -> dist w = F32.zero).
Proof.
  split; [cbn; lia|].
  apply (proj2 (rebuild_degenerate F32.hypot_ref (st [pt 5 7] 3) ltac:(cbn; lia)) (pt 5 7)).
  reflexivity.
Defined.

(** C1, refuted as stated: three points appended and two removed leave one
    control point, and the rebuild that follows the last removal produces
    four samples (the quality is 4), not an empty spline. *)
Lemma rebuild_single_point_not_empty :
  exists s',
    run F32.hypot_ref
      [MouseButtonDown ButtonLeft 10 20; MouseButtonDown ButtonLeft 30 40;
       MouseButtonDown ButtonLeft 50 60;
       MouseButtonDown ButtonRight 0 0; MouseButtonDown ButtonRight 0 0]
      initial_state = Some s' /\
    (length (bezier_pts s') < 2)%nat /\
    1 <= quality s' /\
    length (bezier_spline s') = 4%nat /\
    bezier_spline <$> update_bezier F32.hypot_ref s' <> Some [].
Proof.
  eexists. split; [vm_compute; reflexivity|].
  split; [cbn; lia|]. split; [cbn; lia|]. split; [reflexivity|].
  vm_compute. discriminate.
Qed.

(** C2, as the program behaves. There is no guard for a sample count of at
    most 1. A sample count of 0 gives an empty spline. A sample count of 1
    (one control point, quality 1) gives one sample, at the control point
    (the evaluator does not use the parameter on a single point) and with
    arc length 0, so that nothing that is not finite enters the spline when
    the control point is finite. *)
Theorem rebuild_small_sample_count (hypot : float -> float -> float) (s : state) :
  0 <= quality s ->
  Z.of_nat (length (bezier_pts s)) * quality s <= 1 ->
  exists s',
    update_bezier hypot s = Some s' /\
    ((Z.of_nat (length (bezier_pts s)) * quality s = 0 /\ bezier_spline s' = []) \/
     (exists v,
        bezier_pts s = [v] /\ quality s = 1 /\
        bezier_spline s' = [BezierVertex (Vertex (position v) spline_color) F32.zero] /\
        (finite_point (position v) ->
         Forall (fun w => finite_point (position (base w)) /\ F32.is_finite (dist w) = true)
                (bezier_spline s')))).
Proof.
  intros Hq Hle.
  destruct (update_bezier_spec hypot s) as (spline & Hu & Hl & Hsam & Harc).
  eexists. split; [exact Hu|]. cbn [bezier_spline].
  rewrite sample_count_exact in Hl, Hsam by lia.
  destruct (Z.eq_dec (Z.of_nat (length (bezier_pts s)) * quality s) 0) as [H0 | H1].
  - left. split; [exact H0|]. rewrite H0 in Hl. destruct spline; [reflexivity | discriminate].
  - right.
    assert (Hn1 : 1 <= Z.of_nat (length (bezier_pts s))).
    { destruct (length (bezier_pts s)); [cbn in H1; lia | lia]. }
    assert (Hq0 : 1 <= quality s).
    { destruct (Z.eq_dec (quality s) 0) as [E | E]; [rewrite E in H1; lia | lia]. }
    assert (Hlen : length (bezier_pts s) = 1%nat) by nia.
    assert (Hq1 : quality s = 1) by nia.
    destruct (bezier_pts s) as [| v [| v' rest]] eqn:Hs; try discriminate.
    exists v. split; [reflexivity|]. split; [exact Hq1|].
    rewrite Hq1 in Hl, Hsam. cbn in Hl.
    destruct spline as [| w [| w' rest]]; try discriminate.
    destruct (Hsam 0%nat w eq_refl) as [Hc Hb].
    rewrite bezier_single in Hb. injection Hb as Hb.
    pose proof (proj1 Harc w eq_refl) as Hd.
    assert (Hw : w = BezierVertex (Vertex (position v) spline_color) F32.zero).
    { destruct w as [[p c] d]. cbn in *. subst. reflexivity. }
    split; [rewrite Hw; reflexivity|].
    intros Hfin. rewrite Hw. constructor; [|constructor]. split; [exact Hfin | reflexivity].
Qed.

Lemma rebuild_small_sample_count_witness :
  0 <= quality (st [pt 5 7] 1) /\
  Z.of_nat (length (bezier_pts (st [pt 5 7] 1))) * quality (st [pt 5 7] 1) <= 1 /\
  exists s',
    update_bezier F32.hypot_ref (st [pt 5 7] 1) = Some s' /\
    ((Z.of_nat (length (bezier_pts (st [pt 5 7] 1))) * quality (st [pt 5 7] 1) = 0
      /\ bezier_spline s' = []) \/
     (exists v,
        bezier_pts (st [pt 5 7] 1) = [v] /\ quality (st [pt 5 7] 1) = 1 /\
        bezier_spline s' = [BezierVertex (Vertex (position v) spline_color) F32.zero] /\
        (finite_point (position v) ->
         Forall (fun w => finite_point (position (base w)) /\ F32.is_finite (dist w) = true)
                (bezier_spline s')))).
Proof.
  split; [cbn; lia|]. split; [cbn; lia|].
  apply (rebuild_small_sample_count F32.hypot_ref (st [pt 5 7] 1)); cbn; lia.
Defined.

(** C2, refuted as stated: with one control point and quality 1 the sample
    count is 1 and the rebuilt spline is not empty. *)
Lemma rebuild_unguarded_single_sample :
  sample_count (bezier_pts (st [pt 5 7] 1)) (quality (st [pt 5 7] 1)) = 1 /\
  bezier_spline <$> update_bezier F32.hypot_ref (st [pt 5 7] 1) =
    Some [BezierVertex (Vertex (position (pt 5 7)) spline_color) F32.zero] /\
  bezier_spline <$> update_bezier F32.hypot_ref (st [pt 5 7] 1) <> Some [].
Proof.
  split; [reflexivity|]. split; [vm_compute; reflexivity|]. vm_compute. discriminate.
Qed.

(** ** Scenario A *)

(** C8. Control points [(0,0)] and [(100,0)] with quality 1 give two samples:
    [(0,0)] with arc length 0 and [(100,0)] with arc length 100, provided
    [hypot (x, 0) = |x|], as Annex F of the C standard prescribes. *)
Theorem scenario_A (hypot : float -> float -> float) (s : state) :
  (forall a sg, F32.valid a = true -> hypot a (S754_zero sg) = SFabs a) ->
  bezier_pts s = [pt 0 0; pt 100 0] -> quality s = 1 ->
  bezier_spline <$> update_bezier hypot s =
    Some [BezierVertex (Vertex (Vec2 (F32.of_Z 0) (F32.of_Z 0)) spline_color) (F32.of_Z 0);
          BezierVertex (Vertex (Vec2 (F32.of_Z 100) (F32.of_Z 0)) spline_color) (F32.of_Z 100)].
Proof.
  intros Hlaw Hs Hq. unfold update_bezier, tessellate. rewrite Hs, Hq.
  vm_compute. rewrite Hlaw by reflexivity. reflexivity.
Qed.

Lemma scenario_A_witness :
  (forall a sg, F32.valid a = true -> F32.hypot_ref a (S754_zero sg) = SFabs a) /\
  bezier_pts (st [pt 0 0; pt 100 0] 1) = [pt 0 0; pt 100 0] /\
  quality (st [pt 0 0; pt 100 0] 1) = 1 /\
  bezier_spline <$> update_bezier F32.hypot_ref (st [pt 0 0; pt 100 0] 1) =
    Some [BezierVertex (Vertex (Vec2 (F32.of_Z 0) (F32.of_Z 0)) spline_color) (F32.of_Z 0);
          BezierVertex (Vertex (Vec2 (F32.of_Z 100) (F32.of_Z 0)) spline_color) (F32.of_Z 100)].
Proof.
  split; [exact F32Facts.hypot_ref_zero_r|]. split; [reflexivity|]. split; [reflexivity|].
  apply (scenario_A F32.hypot_ref (st [pt 0 0; pt 100 0] 1) F32Facts.hypot_ref_zero_r);
    reflexivity.
Defined.

(** ** The evaluator *)

(** C3. On two points the evaluator returns their linear interpolation
    [(1 - t) * p + t * q], for every parameter; at [t = 0] this is the first
    point and at [t = 1] the last point, exactly, when the coordinates are
    regular numbers. On [n >= 1] points the loops of the evaluator perform
    the rounds of de Casteljau and return the one point left after [n - 1]
    rounds; a single point is returned as it is. *)
Theorem bezier_de_casteljau :
  (forall v0 v1 t,
     bezier [v0; v1] t = Some (lerp_spec t (position v0) (position v1))) /\
  (forall v0 v1, regular_vertex v0 -> regular_vertex v1 ->
     bezier [v0; v1] F32.zero = Some (position v0) /\
     bezier [v0; v1] F32.one = Some (position v1)) /\
  (forall vertices t, vertices <> [] ->
     length (casteljau_rounds t (map position vertices)) = 1%nat /\
     bezier vertices t = de_casteljau t (map position vertices) /\
     is_Some (bezier vertices t)) /\
  (forall v t, bezier [v] t = Some (position v)).
Proof.
  assert (H2 : forall v0 v1 t,
             bezier [v0; v1] t = Some (lerp t (position v0) (position v1)))
    by reflexivity.
  split; [|split; [|split]].
  - intros v0 v1 t. rewrite lerp_spec_eq. apply H2.
  - intros v0 v1 R0 R1. rewrite !H2. split; f_equal.
    + apply lerp_zero; assumption.
    + apply lerp_one; assumption.
  - intros vertices t Hne.
    assert (Hpos : (0 < length vertices)%nat) by (destruct vertices; [congruence | cbn; lia]).
    unfold de_casteljau, casteljau_rounds. rewrite length_map.
    split; [rewrite iter_rounds_length, length_map; lia|].
    split; [|apply bezier_is_Some, Hne].
    rewrite head_lookup, iter_rounds_lookup. apply bezier_casteljau, Hne.
  - reflexivity.
Qed.

Lemma bezier_de_casteljau_witness :
  regular_vertex (pt 0 0) /\ regular_vertex (pt 100 0) /\
  bezier [pt 0 0; pt 100 0] F32.zero = Some (position (pt 0 0)) /\
  bezier [pt 0 0; pt 100 0] F32.one = Some (position (pt 100 0)).
Proof.
  assert (R0 : regular_vertex (pt 0 0)) by (split; reflexivity).
  assert (R1 : regular_vertex (pt 100 0)) by (split; reflexivity).
  split; [exact R0|]. split; [exact R1|].
  exact (proj1 (proj2 bezier_de_casteljau) (pt 0 0) (pt 100 0) R0 R1).
Defined.

(** ** Endpoints *)

(** C5. With at least two control points, all with regular coordinates, and
    a quality of at least 1 (the sample count fitting [size_t]), the first
    sample sits exactly on the first control point and the last sample
    exactly on the last control point. *)
Theorem spline_endpoints (hypot : float -> float -> float) (s : state) :
  (2 <= length (bezier_pts s))%nat ->
  Forall regular_vertex (bezier_pts s) ->
  1 <= quality s ->
  Z.of_nat (length (bezier_pts s)) * quality s < 2 ^ 64 ->
  exists s' first_sample last_sample first_point last_point,
    update_bezier hypot s = Some s' /\
    head (bezier_spline s') = Some first_sample /\
    last (bezier_spline s') = Some last_sample /\
    head (bezier_pts s) = Some first_point /\
    last (bezier_pts s) = Some last_point /\
    position (base first_sample) = position first_point /\
    position (base last_sample) = position last_point.
Proof.
  intros Hlen Hreg Hq Hfit.
  destruct (update_bezier_spec hypot s) as (spline & Hu & Hl & Hsam & _).
  set (pts := bezier_pts s) in *. set (N := sample_count pts (quality s)) in *.
  assert (HN : 2 <= N < 2 ^ 64).
  { unfold N. rewrite sample_count_exact by lia. nia. }
  assert (Hne : pts <> []) by (destruct pts; [cbn in Hlen; lia | congruence]).
  assert (Hregp : Forall regular_point (map position pts)).
  { apply List.Forall_map. exact Hreg. }
  destruct (lookup_lt_is_Some_2 spline 0) as [w0 Hw0]; [lia|].
  destruct (lookup_lt_is_Some_2 spline (Z.to_nat N - 1)) as [w1 Hw1]; [lia|].
  destruct (lookup_lt_is_Some_2 pts 0) as [p0 Hp0]; [lia|].
  destruct (lookup_lt_is_Some_2 pts (length pts - 1)) as [p1 Hp1]; [lia|].
  exists (State pts spline (quality s) pts spline (cout s ++ map dist spline)),
    w0, w1, p0, p1.
  cbn [bezier_spline].
  split; [exact Hu|].
  split; [rewrite head_lookup; exact Hw0|].
  split; [rewrite last_lookup, Hl; replace (Nat.pred (Z.to_nat N)) with (Z.to_nat N - 1)%nat by lia;
          exact Hw1|].
  split; [rewrite head_lookup; exact Hp0|].
  split; [rewrite last_lookup; replace (Nat.pred (length pts)) with (length pts - 1)%nat by lia;
          exact Hp1|].
  split.
  - destruct (Hsam 0%nat w0 Hw0) as [_ Hb].
    rewrite sample_parameter_first, bezier_casteljau in Hb by assumption.
    rewrite casteljau_zero, lookup_map, Hp0 in Hb by (rewrite ?length_map; auto; lia).
    injection Hb as <-. reflexivity.
  - destruct (Hsam _ w1 Hw1) as [_ Hb].
    rewrite sample_parameter_last, bezier_casteljau in Hb by assumption.
    rewrite casteljau_one, lookup_map in Hb by (rewrite ?length_map; auto; lia).
    cbn [Nat.add] in Hb. rewrite Hp1 in Hb.
    injection Hb as <-. reflexivity.
Qed.

Lemma spline_endpoints_witness :
  (2 <= length (bezier_pts (st [pt 0 0; pt 100 0; pt 100 100] 4)))%nat /\
  Forall regular_vertex (bezier_pts (st [pt 0 0; pt 100 0; pt 100 100] 4)) /\
  1 <= quality (st [pt 0 0; pt 100 0; pt 100 100] 4) /\
  Z.of_nat (length (bezier_pts (st [pt 0 0; pt 100 0; pt 100 100] 4)))
    * quality (st [pt 0 0; pt 100 0; pt 100 100] 4) < 2 ^ 64 /\
  exists s' first_sample last_sample first_point last_point,
    update_bezier F32.hypot_ref (st [pt 0 0; pt 100 0; pt 100 100] 4) = Some s' /\
    head (bezier_spline s') = Some first_sample /\
    last (bezier_spline s') = Some last_sample /\
    head (bezier_pts (st [pt 0 0; pt 100 0; pt 100 100] 4)) = Some first_point /\
    last (bezier_pts (st [pt 0 0; pt 100 0; pt 100 100] 4)) = Some last_point /\
    position (base first_sample) = position first_point /\
    position (base last_sample) = position last_point.
Proof.
  assert (H1 : (2 <= length (bezier_pts (st [pt 0 0; pt 100 0; pt 100 100] 4)))%nat)
    by (cbn; lia).
  assert (H2 : Forall regular_vertex (bezier_pts (st [pt 0 0; pt 100 0; pt 100 100] 4)))
    by (repeat constructor).
  assert (H3 : 1 <= quality (st [pt 0 0; pt 100 0; pt 100 100] 4)) by (cbn; lia).
  assert (H4 : Z.of_nat (length (bezier_pts (st [pt 0 0; pt 100 0; pt 100 100] 4)))
               * quality (st [pt 0 0; pt 100 0; pt 100 100] 4) < 2 ^ 64) by (cbn; lia).
  split; [exact H1|]. split; [exact H2|]. split; [exact H3|]. split; [exact H4|].
  exact (spline_endpoints F32.hypot_ref _ H1 H2 H3 H4).
Defined.

(** ** Arc length *)

(** C4. In every rebuilt spline the first arc length is exactly 0, each
    further arc length is the previous one plus the [hypot] of the
    coordinate differences of the two samples, and arc lengths never
    decrease: the next one is at least the previous one, unless it is a NaN;
    no arc length is a NaN when all sample positions are finite. [hypot] is
    assumed to return well-formed numbers with a clear sign bit, and a NaN
    only for a NaN argument. *)
Theorem arc_length_monotone (hypot : float -> float -> float) (s : state) :
  (forall a b, F32.valid (hypot a b) = true) ->
  (forall a b, F32.sign_clear (hypot a b) = true) ->
  exists s',
    update_bezier hypot s = Some s' /\
    (forall v, head (bezier_spline s') = Some v -> dist v = F32.zero) /\
    (forall i a b,
       bezier_spline s' !! i = Some a -> bezier_spline s' !! S i = Some b ->
       dist b =
         (hypot (x (position (base a)) - x (position (base b)))
                (y (position (base a)) - y (position (base b))) + dist a)%f32 /\
       (F32.is_nan (dist b) = true \/ F32.leb (dist a) (dist b) = true)) /\
    ((forall a b, F32.is_nan (hypot a b) = true ->
                  F32.is_nan a = true \/ F32.is_nan b = true) ->
     (forall w, w ∈ bezier_spline s' -> finite_point (position (base w))) ->
     forall i a b,
       bezier_spline s' !! i = Some a -> bezier_spline s' !! S i = Some b ->
       F32.leb (dist a) (dist b) = true).
Proof.
  intros Hv Hs.
  destruct (update_bezier_spec hypot s) as (spline & Hu & _ & _ & Harc).
  eexists. split; [exact Hu|]. cbn [bezier_spline].
  pose proof (arc_lengths_wf hypot spline Hv Hs Harc) as Hwf.
  assert (Hstep : forall i a b,
             spline !! i = Some a -> spline !! S i = Some b ->
             dist b =
               (hypot (x (position (base a)) - x (position (base b)))
                      (y (position (base a)) - y (position (base b))) + dist a)%f32 /\
             (F32.is_nan (dist b) = true \/ F32.leb (dist a) (dist b) = true)).
  { intros i a b Ha Hb. pose proof (proj2 Harc i a b Ha Hb) as E.
    split; [exact E|]. rewrite E. destruct (Hwf i a Ha) as [Va Sa].
    set (h := hypot _ _).
    destruct (F32Facts.add_sign_clear h (dist a) (Hv _ _) Va (Hs _ _) Sa) as (_ & _ & H & _).
    exact H. }
  split; [|split].
  - intros v Hv0. rewrite head_lookup in Hv0. apply (proj1 Harc), Hv0.
  - exact Hstep.
  - intros Hn Hfin i a b Ha Hb.
    destruct (Hstep i a b Ha Hb) as [_ [Hnan | Hle]]; [|exact Hle].
    rewrite (arc_lengths_not_nan hypot spline Hv Hs Hn Harc Hfin (S i) b Hb) in Hnan.
    discriminate.
Qed.

Lemma arc_length_monotone_witness :
  (forall a b, F32.valid (F32.hypot_ref a b) = true) /\
  (forall a b, F32.sign_clear (F32.hypot_ref a b) = true) /\
  exists s',
    update_bezier F32.hypot_ref (st [pt 0 0; pt 100 0; pt 100 100] 4) = Some s' /\
    length (bezier_spline s') = 12%nat /\
    (forall v, head (bezier_spline s') = Some v -> dist v = F32.zero) /\
    (forall i a b,
       bezier_spline s' !! i = Some a -> bezier_spline s' !! S i = Some b ->
       F32.leb (dist a) (dist b) = true).
Proof.
  split; [exact F32Facts.hypot_ref_valid|]. split; [exact F32Facts.hypot_ref_sign|].
  destruct (arc_length_monotone F32.hypot_ref (st [pt 0 0; pt 100 0; pt 100 100] 4)
              F32Facts.hypot_ref_valid F32Facts.hypot_ref_sign)
    as (s' & Hu & H0 & _ & Hle).
  exists s'. split; [exact Hu|].
  assert (Hs : length (bezier_spline s') = 12%nat /\
               Forall (fun w => finite_point (position (base w))) (bezier_spline s')).
  { vm_compute in Hu. injection Hu as <-. cbn [bezier_spline].
    split; [reflexivity | repeat constructor]. }
  destruct Hs as [Hlen Hfin].
  split; [exact Hlen|]. split; [exact H0|].
  apply Hle; [exact F32Facts.hypot_ref_nan|].
  apply Forall_forall, Hfin.
Defined.

(** ** Quality *)

(** C7. [decrease] lowers the quality by one and rebuilds when the result is
    still at least 1, and otherwise leaves the whole state untouched (no
    rebuild); [increase] adds one without any test (in [size_t]) and
    rebuilds; repeated [decrease] stops at 1; and in every state reached from
    the initial one by a sequence of events that is too short to overflow
    [size_t] the quality is at least 1. *)
Theorem quality_floor (hypot : float -> float -> float) :
  (forall s, 1 < quality s < 2 ^ 64 ->
     decrease hypot s = update_bezier hypot (with_quality s (quality s - 1)) /\
     exists s', decrease hypot s = Some s' /\ quality s' = quality s - 1) /\
  (forall s, quality s <= 1 -> decrease hypot s = Some s) /\
  (forall s,
     increase hypot s = update_bezier hypot (with_quality s (wrap (quality s + 1))) /\
     (exists s', increase hypot s = Some s' /\ quality s' = wrap (quality s + 1)) /\
     (0 <= quality s -> quality s + 1 < 2 ^ 64 -> wrap (quality s + 1) = quality s + 1)) /\
  (forall n s, 1 <= quality s < 2 ^ 64 ->
     exists s',
       run hypot (repeat (KeyDown KeyLeft) n) s = Some s' /\
       quality s' = Z.max 1 (quality s - Z.of_nat n)) /\
  (forall es, 4 + Z.of_nat (length es) < 2 ^ 64 ->
     exists s',
       run hypot es initial_state = Some s' /\
       1 <= quality s' <= 4 + Z.of_nat (length es)).
Proof.
  split; [|split; [|split; [|split]]].
  - intros s Hq. unfold decrease. cbn [handle_event].
    assert (E : (1 <? quality s) = true) by (apply Z.ltb_lt; lia).
    rewrite E, wrap_small by lia. split; [reflexivity|].
    destruct (update_bezier_spec hypot (with_quality s (quality s - 1))) as (spline & -> & _).
    eexists. split; reflexivity.
  - intros s Hq. unfold decrease. cbn [handle_event].
    assert (E : (1 <? quality s) = false) by (apply Z.ltb_ge; lia).
    rewrite E. reflexivity.
  - intros s. unfold increase. cbn [handle_event]. split; [reflexivity|]. split.
    + destruct (update_bezier_spec hypot (with_quality s (wrap (quality s + 1))))
        as (spline & -> & _).
      eexists. split; reflexivity.
    + intros H0 H1. apply wrap_small. lia.
  - intros n s Hq. apply run_decrease, Hq.
  - intros es Hlen.
    destruct (run_is_Some hypot es initial_state) as [s' Hr].
    exists s'. split; [exact Hr|].
    apply (run_quality hypot es initial_state s' Hr); cbn; lia.
Qed.

Lemma quality_floor_witness :
  (1 <= quality initial_state < 2 ^ 64) /\
  (exists s',
     run F32.hypot_ref (repeat (KeyDown KeyLeft) 10) initial_state = Some s' /\
     quality s' = 1) /\
  (4 + Z.of_nat (length [KeyDown KeyRight; MouseButtonDown ButtonLeft 3 4;
                         KeyDown KeyLeft; KeyDown KeyLeft]) < 2 ^ 64) /\
  (exists s',
     run F32.hypot_ref [KeyDown KeyRight; MouseButtonDown ButtonLeft 3 4;
                        KeyDown KeyLeft; KeyDown KeyLeft] initial_state = Some s' /\
     1 <= quality s' <= 8).
Proof.
  assert (H1 : 1 <= quality initial_state < 2 ^ 64) by (cbn; lia).
  assert (H2 : 4 + Z.of_nat (length [KeyDown KeyRight; MouseButtonDown ButtonLeft 3 4;
                                     KeyDown KeyLeft; KeyDown KeyLeft]) < 2 ^ 64)
    by (cbn; lia).
  split; [exact H1|].
  split; [exact (proj1 (proj2 (proj2 (proj2 (quality_floor F32.hypot_ref)))) 10%nat
                   initial_state H1)|].
  split; [exact H2|].
  exact (proj2 (proj2 (proj2 (proj2 (quality_floor F32.hypot_ref)))) _ H2).
Defined.

(** * Further properties of the curve core and of the main loop *)

Local Open Scope nat_scope.

(** ** The spline depends on the control points and the quality alone *)

Lemma update_bezier_spline_indep (hypot : float -> float -> float) (s s2 : state) :
  bezier_pts s2 = bezier_pts s -> quality s2 = quality s ->
  bezier_spline <$> update_bezier hypot s2 = bezier_spline <$> update_bezier hypot s.
Proof.
  intros Hp Hq.
  destruct (tessellate_spec hypot (bezier_pts s) (quality s) (cout s)) as (sp1 & H1 & _).
  destruct (tessellate_spec hypot (bezier_pts s) (quality s) (cout s2)) as (sp2 & H2 & _).
  unfold update_bezier. rewrite Hp, Hq, H1, H2. cbn. f_equal.
  unfold tessellate in H1, H2.
  exact (for_each_spline_independent hypot _ _ _ _ _ _ _ _ H2 H1).
Qed.

Lemma update_bezier_synced (hypot : float -> float -> float) (s s' : state) :
  update_bezier hypot s = Some s' -> synced hypot s'.
Proof.
  intros Hu. destruct (update_bezier_spec hypot s) as (spline & Hs & _).
  rewrite Hs in Hu. injection Hu as <-.
  split; [reflexivity|]. split; [reflexivity|].
  rewrite (update_bezier_spline_indep hypot s) by reflexivity.
  rewrite Hs. reflexivity.
Qed.

Lemma initial_synced (hypot : float -> float -> float) : synced hypot initial_state.
Proof. repeat split. Qed.

Lemma handle_event_synced (hypot : float -> float -> float) (e : event) (s s' : state) :
  synced hypot s -> handle_event hypot e s = Some s' -> synced hypot s'.
Proof.
  intros Hs He.
  destruct e as [[] mx my | [] |]; cbn [handle_event] in He;
    try (injection He as <-; exact Hs);
    try (apply (update_bezier_synced hypot _ _ He)).
  - destruct (bezier_pts s); [injection He as <-; exact Hs|].
    apply (update_bezier_synced hypot _ _ He).
  - destruct (1 <? quality s)%Z; [|injection He as <-; exact Hs].
    apply (update_bezier_synced hypot _ _ He).
Qed.

Lemma run_synced (hypot : float -> float -> float) (es : list event) (s s' : state) :
  synced hypot s -> run hypot es s = Some s' -> synced hypot s'.
Proof.
  revert s. induction es as [| e es IH]; intros s Hs Hrun; cbn [run] in Hrun.
  - injection Hrun as <-. exact Hs.
  - destruct (handle_event hypot e s) as [s1 |] eqn:E; [|discriminate]. cbn in Hrun.
    apply (IH s1); [|exact Hrun]. exact (handle_event_synced hypot e s s1 Hs E).
Qed.

(** A synced spline has the shape that a rebuild gives. *)
Lemma synced_shape (hypot : float -> float -> float) (s : state) :
  synced hypot s ->
  length (bezier_spline s) = Z.to_nat (sample_count (bezier_pts s) (quality s)) /\
  samples_of (bezier_pts s) (sample_count (bezier_pts s) (quality s)) (bezier_spline s) /\
  arc_lengths_of hypot (bezier_spline s).
Proof.
  intros (_ & _ & Hs).
  destruct (update_bezier_spec hypot s) as (spline & Hu & Hrest).
  rewrite Hu in Hs. cbn in Hs. injection Hs as <-. exact Hrest.
Qed.

(** ** The number of control points *)

Lemma handle_event_pts_length (hypot : float -> float -> float) (e : event) (s s' : state) :
  handle_event hypot e s = Some s' ->
  length (bezier_pts s') <= S (length (bezier_pts s)).
Proof.
  intros He.
  destruct e as [[] mx my | [] |]; cbn [handle_event] in He;
    try (injection He as <-; lia);
    try (apply update_bezier_pts in He; rewrite He; cbn [with_quality with_pts bezier_pts];
         rewrite ?length_app; cbn [length]; lia).
  - destruct (bezier_pts s) as [| v rest] eqn:E; [injection He as <-; rewrite E; cbn; lia|].
    apply update_bezier_pts in He. rewrite He. cbn [with_pts bezier_pts].
    unfold pop_back. rewrite removelast_firstn_len, length_take. lia.
  - destruct (1 <? quality s)%Z; [|injection He as <-; lia].
    apply update_bezier_pts in He. rewrite He. cbn. lia.
Qed.

Lemma run_pts_length (hypot : float -> float -> float) (es : list event) (s s' : state) :
  run hypot es s = Some s' ->
  length (bezier_pts s') <= length (bezier_pts s) + length es.
Proof.
  revert s. induction es as [| e es IH]; intros s Hrun; cbn [run] in Hrun.
  - injection Hrun as <-. cbn. lia.
  - destruct (handle_event hypot e s) as [s1 |] eqn:E; [|discriminate]. cbn in Hrun.
    pose proof (handle_event_pts_length hypot e s s1 E).
    pose proof (IH s1 Hrun). cbn [length]. lia.
Qed.

(** ** Endpoints of a spline with the shape of a rebuild *)

Lemma evaluator_endpoints (vertices : list vertex) (v0 v1 : vertex) :
  Forall regular_vertex vertices ->
  head vertices = Some v0 -> last vertices = Some v1 ->
  bezier vertices F32.zero = Some (position v0) /\
  bezier vertices F32.one = Some (position v1).
Proof.
  intros Hreg H0 H1.
  assert (Hne : vertices <> []) by (destruct vertices; [discriminate | congruence]).
  assert (Hpos : 0 < length vertices) by (destruct vertices; [congruence | cbn; lia]).
  assert (Hregp : Forall regular_point (map position vertices)).
  { apply List.Forall_map. exact Hreg. }
  rewrite head_lookup in H0. rewrite last_lookup in H1.
  rewrite !bezier_casteljau by exact Hne.
  rewrite casteljau_zero, casteljau_one by (rewrite ?length_map; auto; lia).
  rewrite !lookup_map. cbn [Nat.add].
  replace (length vertices - 1) with (Nat.pred (length vertices)) by lia.
  rewrite H0, H1. split; reflexivity.
Qed.

Lemma samples_endpoints (pts : list vertex) (q : Z) (spline : list bezier_vertex) :
  2 <= length pts -> Forall regular_vertex pts ->
  (1 <= q)%Z -> (Z.of_nat (length pts) * q < 2 ^ 64)%Z ->
  length spline = Z.to_nat (sample_count pts q) ->
  samples_of pts (sample_count pts q) spline ->
  exists first_sample last_sample first_point last_point,
    head spline = Some first_sample /\ last spline = Some last_sample /\
    head pts = Some first_point /\ last pts = Some last_point /\
    position (base first_sample) = position first_point /\
    position (base last_sample) = position last_point.
Proof.
  intros Hlen Hreg Hq Hfit Hl Hsam.
  set (N := sample_count pts q) in *.
  assert (HN : (2 <= N < 2 ^ 64)%Z).
  { unfold N. rewrite sample_count_exact by lia. nia. }
  destruct (lookup_lt_is_Some_2 spline 0) as [w0 Hw0]; [lia|].
  destruct (lookup_lt_is_Some_2 spline (Z.to_nat N - 1)) as [w1 Hw1]; [lia|].
  destruct (lookup_lt_is_Some_2 pts 0) as [p0 Hp0]; [lia|].
  destruct (lookup_lt_is_Some_2 pts (Nat.pred (length pts))) as [p1 Hp1]; [lia|].
  rewrite <- head_lookup in Hp0. rewrite <- last_lookup in Hp1.
  destruct (evaluator_endpoints pts p0 p1 Hreg Hp0 Hp1) as [E0 E1].
  exists w0, w1, p0, p1.
  split; [rewrite head_lookup; exact Hw0|].
  split; [rewrite last_lookup, Hl;
          replace (Nat.pred (Z.to_nat N)) with (Z.to_nat N - 1) by lia; exact Hw1|].
  split; [exact Hp0|]. split; [exact Hp1|]. split.
  - destruct (Hsam 0 w0 Hw0) as [_ Hb].
    rewrite sample_parameter_first, E0 in Hb by assumption. injection Hb as <-. reflexivity.
  - destruct (Hsam _ w1 Hw1) as [_ Hb].
    rewrite sample_parameter_last, E1 in Hb by assumption. injection Hb as <-. reflexivity.
Qed.

(** ** Arc lengths along the whole spline *)

Lemma arc_lengths_nan_sticky (hypot : float -> float -> float) (spline : list bezier_vertex) :
  arc_lengths_of hypot spline ->
  forall k i a b, spline !! i = Some a -> spline !! (i + k) = Some b ->
    F32.is_nan (dist a) = true -> F32.is_nan (dist b) = true.
Proof.
  intros [_ Hstep]. induction k as [| k IH]; intros i a b Ha Hb Hn.
  - rewrite Nat.add_0_r, Ha in Hb. injection Hb as <-. exact Hn.
  - destruct (lookup_lt_is_Some_2 spline (i + k)) as [c Hc].
    { apply lookup_lt_Some in Hb. lia. }
    replace (i + S k) with (S (i + k)) in Hb by lia.
    rewrite (Hstep _ c b Hc Hb).
    pose proof (IH i a c Ha Hc Hn) as Hcn.
    destruct (dist c); try discriminate. rewrite F32Facts.add_nan_r. reflexivity.
Qed.

Lemma arc_lengths_ordered (hypot : float -> float -> float) (spline : list bezier_vertex) :
  (forall a b, F32.valid (hypot a b) = true) ->
  (forall a b, F32.sign_clear (hypot a b) = true) ->
  arc_lengths_of hypot spline ->
  forall k i a b, spline !! i = Some a -> spline !! (i + k) = Some b ->
    F32.is_nan (dist b) = false -> F32.leb (dist a) (dist b) = true.
Proof.
  intros Hv Hs Harc.
  pose proof (arc_lengths_wf hypot spline Hv Hs Harc) as Hwf.
  pose proof (arc_lengths_nan_sticky hypot spline Harc) as Hsticky.
  destruct Harc as [_ Hstep].
  induction k as [| k IH]; intros i a b Ha Hb Hn.
  - rewrite Nat.add_0_r, Ha in Hb. injection Hb as <-. apply F32Facts.leb_refl, Hn.
  - destruct (lookup_lt_is_Some_2 spline (i + k)) as [c Hc].
    { apply lookup_lt_Some in Hb. lia. }
    replace (i + S k) with (S (i + k)) in Hb by lia.
    assert (Hcn : F32.is_nan (dist c) = false).
    { destruct (F32.is_nan (dist c)) eqn:E; [|reflexivity].
      rewrite (Hsticky 1 (i + k) c b Hc) in Hn; [discriminate | | exact E].
      replace (i + k + 1) with (S (i + k)) by lia. exact Hb. }
    pose proof (IH i a c Ha Hc Hcn) as Hac.
    destruct (Hwf i a Ha) as [_ Sa]. destruct (Hwf (i + k) c Hc) as [Vc Sc].
    destruct (Hwf _ b Hb) as [_ Sb].
    apply (F32Facts.leb_trans (dist a) (dist c) (dist b) Sa Sc Sb Hac).
    pose proof (Hstep _ c b Hc Hb) as E. rewrite E in Hn |- *.
    set (h := hypot _ _) in *.
    destruct (F32Facts.add_sign_clear h (dist c) (Hv _ _) Vc (Hs _ _) Sc) as (_ & _ & [H | H] & _);
      [rewrite H in Hn; discriminate | exact H].
Qed.

(** ** The parameter of every sample *)

Lemma sample_parameter_unit (N : Z) (i : nat) :
  (2 <= N < 2 ^ 64)%Z -> i < Z.to_nat N ->
  F32.is_finite (sample_parameter N i) = true /\
  F32.leb F32.zero (sample_parameter N i) = true /\
  F32.leb (sample_parameter N i) F32.one = true.
Proof.
  intros HN Hi. destruct i as [| i].
  - rewrite sample_parameter_first by exact HN. repeat split.
  - unfold sample_parameter. rewrite wrap_small by lia.
    destruct (F32Facts.of_Z_mono (Z.of_nat (S i)) (N - 1) ltac:(lia) ltac:(lia))
      as (ma & ea & mb & eb & -> & -> & Ha & Hb & Hea & Heb & Hord).
    destruct (F32Facts.div_le_one ma mb ea eb Ha Hb Hord ltac:(lia)) as (m & e & -> & _ & Hle).
    repeat split. exact Hle.
Qed.

(** ** Repeated changes of the quality *)

Lemma wrap_add (a b : Z) : wrap (wrap a + b) = wrap (a + b).
Proof. unfold wrap. apply Zplus_mod_idemp_l. Qed.

Lemma wrap_range (a : Z) : (0 <= wrap a < 2 ^ 64)%Z.
Proof. unfold wrap, size_max. apply Z.mod_pos_bound. lia. Qed.

Lemma run_increase (hypot : float -> float -> float) (n : nat) (s : state) :
  (0 <= quality s < 2 ^ 64)%Z ->
  exists s',
    run hypot (repeat (KeyDown KeyRight) n) s = Some s' /\
    quality s' = wrap (quality s + Z.of_nat n) /\
    bezier_pts s' = bezier_pts s /\
    (n <> 0 -> synced hypot s').
Proof.
  revert s. induction n as [| n IH]; intros s Hq; cbn [repeat run].
  - exists s. split; [reflexivity|]. split; [|split; [reflexivity | congruence]].
    rewrite Z.add_0_r, wrap_small by exact Hq. reflexivity.
  - cbn [handle_event].
    destruct (update_bezier_is_Some hypot (with_quality s (wrap (quality s + 1)))) as [s1 H1].
    rewrite H1. cbn [mbind option_bind].
    pose proof (update_bezier_quality hypot _ _ H1) as Q1. cbn [with_quality quality] in Q1.
    pose proof (update_bezier_pts hypot _ _ H1) as P1. cbn [with_quality bezier_pts] in P1.
    pose proof (update_bezier_synced hypot _ _ H1) as S1.
    destruct (IH s1) as (s' & Hr & Hq' & Hp' & Hs').
    { rewrite Q1. apply wrap_range. }
    exists s'. split; [exact Hr|]. split; [|split].
    + rewrite Hq', Q1, wrap_add. f_equal. lia.
    + congruence.
    + intros _. destruct n as [| n]; [|apply Hs'; lia].
      cbn [repeat run] in Hr. injection Hr as <-. exact S1.
Qed.

(** * Further theorems *)

Local Open Scope Z_scope.

(** ** The evaluator *)

(** X1. On any non-empty list of control points with regular coordinates
    the evaluator returns the first point at parameter 0 and the last point
    at parameter 1, bit for bit. *)
Theorem bezier_endpoints (vertices : list vertex) (v0 v1 : vertex) :
  Forall regular_vertex vertices ->
  head vertices = Some v0 -> last vertices = Some v1 ->
  bezier vertices F32.zero = Some (position v0) /\
  bezier vertices F32.one = Some (position v1).
Proof.
  intros Hreg H0 H1.
  assert (Hne : vertices <> []) by (destruct vertices; [discriminate | congruence]).
  assert (Hpos : (0 < length vertices)%nat) by (destruct vertices; [congruence | cbn; lia]).
  assert (Hregp : Forall regular_point (map position vertices)).
  { apply List.Forall_map. exact Hreg. }
  rewrite head_lookup in H0. rewrite last_lookup in H1.
  rewrite !bezier_casteljau by exact Hne.
  rewrite casteljau_zero, casteljau_one by (rewrite ?length_map; auto; lia).
  rewrite !lookup_map. cbn [Nat.add].
  replace (length vertices - 1)%nat with (Nat.pred (length vertices)) by lia.
  rewrite H0, H1. split; reflexivity.
Qed.

Lemma bezier_endpoints_witness :
  Forall regular_vertex [pt 0 0; pt 100 0; pt 100 100; pt (-7) 250] /\
  head [pt 0 0; pt 100 0; pt 100 100; pt (-7) 250] = Some (pt 0 0) /\
  last [pt 0 0; pt 100 0; pt 100 100; pt (-7) 250] = Some (pt (-7) 250) /\
  bezier [pt 0 0; pt 100 0; pt 100 100; pt (-7) 250] F32.zero = Some (position (pt 0 0)) /\
  bezier [pt 0 0; pt 100 0; pt 100 100; pt (-7) 250] F32.one = Some (position (pt (-7) 250)).
Proof.
  assert (H : Forall regular_vertex [pt 0 0; pt 100 0; pt 100 100; pt (-7) 250])
    by (repeat constructor).
  split; [exact H|]. split; [reflexivity|]. split; [reflexivity|].
  exact (bezier_endpoints _ (pt 0 0) (pt (-7) 250) H eq_refl eq_refl).
Defined.

(** ** The tessellator *)


(** X3. No arc length of a rebuilt spline is negative or a negative zero:
    each one is a well-formed number with a clear sign bit (or a NaN),
    provided [hypot] returns such numbers. *)
Theorem arc_lengths_nonnegative (hypot : float -> float -> float) (s : state) :
  (forall a b, F32.valid (hypot a b) = true) ->
  (forall a b, F32.sign_clear (hypot a b) = true) ->
  exists s',
    update_bezier hypot s = Some s' /\
    forall w, w ∈ bezier_spline s' ->
      F32.valid (dist w) = true /\ F32.sign_clear (dist w) = true.
Proof.
  intros Hv Hs.
  destruct (update_bezier_spec hypot s) as (spline & Hu & _ & _ & Harc).
  eexists. split; [exact Hu|]. cbn [bezier_spline].
  intros w Hw. apply list_elem_of_lookup in Hw as [i Hw].
  exact (arc_lengths_wf hypot spline Hv Hs Harc i w Hw).
Qed.

Lemma arc_lengths_nonnegative_witness :
  (forall a b, F32.valid (F32.hypot_ref a b) = true) /\
  (forall a b, F32.sign_clear (F32.hypot_ref a b) = true) /\
  exists s',
    update_bezier F32.hypot_ref (st [pt 0 0; pt 100 0; pt 100 100] 4) = Some s' /\
    forall w, w ∈ bezier_spline s' ->
      F32.valid (dist w) = true /\ F32.sign_clear (dist w) = true.
Proof.
  split; [exact F32Facts.hypot_ref_valid|]. split; [exact F32Facts.hypot_ref_sign|].
  exact (arc_lengths_nonnegative F32.hypot_ref (st [pt 0 0; pt 100 0; pt 100 100] 4)
           F32Facts.hypot_ref_valid F32Facts.hypot_ref_sign).
Defined.

(** X4. Arc length is ordered along the whole spline, not only between
    neighbours: a NaN arc length makes every later one a NaN, and an arc
    length that is not a NaN is at least every earlier one. *)
Theorem arc_lengths_monotone_globally (hypot : float -> float -> float) (s : state) :
  (forall a b, F32.valid (hypot a b) = true) ->
  (forall a b, F32.sign_clear (hypot a b) = true) ->
  exists s',
    update_bezier hypot s = Some s' /\
    forall i j a b, (i <= j)%nat ->
      bezier_spline s' !! i = Some a -> bezier_spline s' !! j = Some b ->
      (F32.is_nan (dist a) = true -> F32.is_nan (dist b) = true) /\
      (F32.is_nan (dist b) = false -> F32.leb (dist a) (dist b) = true).
Proof.
  intros Hv Hs.
  destruct (update_bezier_spec hypot s) as (spline & Hu & _ & _ & Harc).
  eexists. split; [exact Hu|]. cbn [bezier_spline].
  intros i j a b Hij Ha Hb. replace j with (i + (j - i))%nat in Hb by lia. split.
  - exact (arc_lengths_nan_sticky hypot spline Harc _ i a b Ha Hb).
  - exact (arc_lengths_ordered hypot spline Hv Hs Harc _ i a b Ha Hb).
Qed.

Lemma arc_lengths_monotone_globally_witness :
  (forall a b, F32.valid (F32.hypot_ref a b) = true) /\
  (forall a b, F32.sign_clear (F32.hypot_ref a b) = true) /\
  exists s',
    update_bezier F32.hypot_ref (st [pt 0 0; pt 100 0; pt 100 100] 4) = Some s' /\
    forall i j a b, (i <= j)%nat ->
      bezier_spline s' !! i = Some a -> bezier_spline s' !! j = Some b ->
      (F32.is_nan (dist a) = true -> F32.is_nan (dist b) = true) /\
      (F32.is_nan (dist b) = false -> F32.leb (dist a) (dist b) = true).
Proof.
  split; [exact F32Facts.hypot_ref_valid|]. split; [exact F32Facts.hypot_ref_sign|].
  exact (arc_lengths_monotone_globally F32.hypot_ref (st [pt 0 0; pt 100 0; pt 100 100] 4)
           F32Facts.hypot_ref_valid F32Facts.hypot_ref_sign).
Defined.

(** ** The main loop *)

(** X5. After every sequence of events from the initial state both buffers
    hold exactly the vectors, the spline is the one a rebuild would produce
    from the current control points and quality, and each of the three draw
    calls of a frame stays inside the buffer it reads. *)
Theorem render_sync (hypot : float -> float -> float) (es : list event) :
  exists s',
    run hypot es initial_state = Some s' /\
    vbo_pts s' = bezier_pts s' /\
    vbo_spline s' = bezier_spline s' /\
    bezier_spline <$> update_bezier hypot s' = Some (bezier_spline s') /\
    Forall in_bounds (draw_frame s').
Proof.
  destruct (run_is_Some hypot es initial_state) as [s' Hr].
  destruct (run_synced hypot es initial_state s' (initial_synced hypot) Hr) as (H1 & H2 & H3).
  exists s'. split; [exact Hr|]. split; [exact H1|]. split; [exact H2|]. split; [exact H3|].
  unfold draw_frame, in_bounds. rewrite H1, H2.
  repeat constructor.
Qed.

(** X6. Appending a control point and removing it again restores the
    control points and the quality, and leaves the spline that a rebuild of
    the state before the two clicks produces. *)
Theorem append_remove_round_trip (hypot : float -> float -> float) (s : state)
  (x1 y1 x2 y2 : Z) :
  exists s1 s2,
    handle_event hypot (MouseButtonDown ButtonLeft x1 y1) s = Some s1 /\
    handle_event hypot (MouseButtonDown ButtonRight x2 y2) s1 = Some s2 /\
    bezier_pts s1 = bezier_pts s ++ [pt x1 y1] /\
    bezier_pts s2 = bezier_pts s /\
    quality s2 = quality s /\
    bezier_spline <$> update_bezier hypot s = Some (bezier_spline s2).
Proof.
  cbn [handle_event].
  destruct (update_bezier_is_Some hypot (with_pts s (bezier_pts s ++ [pt x1 y1]))) as [s1 H1].
  pose proof (update_bezier_pts hypot _ _ H1) as P1. cbn [with_pts bezier_pts] in P1.
  pose proof (update_bezier_quality hypot _ _ H1) as Q1. cbn [with_pts quality] in Q1.
  exists s1. unfold pt in *. rewrite H1, P1.
  destruct (bezier_pts s ++ [Vertex (Vec2 (F32.of_Z x1) (F32.of_Z y1)) white])
    as [| v rest] eqn:E; [destruct (bezier_pts s); discriminate|].
  rewrite <- E.
  destruct (update_bezier_is_Some hypot
              (with_pts s1 (pop_back (bezier_pts s ++ [Vertex (Vec2 (F32.of_Z x1) (F32.of_Z y1)) white]))))
    as [s2 H2].
  pose proof (update_bezier_pts hypot _ _ H2) as P2. cbn [with_pts bezier_pts] in P2.
  pose proof (update_bezier_quality hypot _ _ H2) as Q2. cbn [with_pts quality] in Q2.
  unfold pop_back in *. rewrite removelast_last in *.
  exists s2. split; [reflexivity|]. split; [exact H2|]. split; [reflexivity|].
  split; [exact P2|]. split; [congruence|].
  destruct (update_bezier_synced hypot _ _ H2) as (_ & _ & H3).
  rewrite <- H3. symmetry. apply update_bezier_spline_indep; congruence.
Qed.

(** X7. Key events never change the control points and mouse events never
    change the quality, over any sequence of events. *)
Theorem events_independent (hypot : float -> float -> float) (es : list event) (s : state) :
  exists s',
    run hypot es s = Some s' /\
    (Forall is_key_event es -> bezier_pts s' = bezier_pts s) /\
    (Forall is_mouse_event es -> quality s' = quality s).
Proof.
  revert s. induction es as [| e es IH]; intros s; cbn [run].
  - exists s. repeat split.
  - destruct (handle_event_is_Some hypot e s) as [s1 H1]. rewrite H1. cbn.
    destruct (IH s1) as (s' & Hr & Hk & Hm). exists s'. split; [exact Hr|]. split.
    + intros HF. inversion HF as [| ? ? He HF']; subst. rewrite (Hk HF').
      destruct e as [b mx my | [] |]; cbn in He; try contradiction; cbn [handle_event] in H1.
      * destruct (1 <? quality s); [|injection H1 as <-; reflexivity].
        apply update_bezier_pts in H1. exact H1.
      * apply update_bezier_pts in H1. exact H1.
      * injection H1 as <-; reflexivity.
    + intros HF. inversion HF as [| ? ? He HF']; subst. rewrite (Hm HF').
      destruct e as [[] mx my | k |]; cbn in He; try contradiction; cbn [handle_event] in H1.
      * apply update_bezier_quality in H1. exact H1.
      * destruct (bezier_pts s); [injection H1 as <-; reflexivity|].
        apply update_bezier_quality in H1. exact H1.
      * injection H1 as <-; reflexivity.
Qed.

(** X8. Every control point that the main loop stores has well-formed,
    finite coordinates other than the negative zero, whatever the events,
    as long as the pointer coordinates are [int]s. *)
Theorem reachable_points_regular (hypot : float -> float -> float) (es : list event) :
  Forall event_in_range es ->
  exists s',
    run hypot es initial_state = Some s' /\
    Forall regular_vertex (bezier_pts s') /\
    Forall (fun v => finite_point (position v)) (bezier_pts s').
Proof.
  intros Hes. destruct (run_is_Some hypot es initial_state) as [s' Hr].
  exists s'. split; [exact Hr|].
  assert (Hreg : Forall regular_vertex (bezier_pts s')).
  { apply (run_regular hypot es initial_state s' Hes); [constructor | exact Hr]. }
  split; [exact Hreg|].
  eapply Forall_impl; [exact Hreg|]. intros v [Hx Hy].
  split; apply F32Facts.regular_finite; assumption.
Qed.

Lemma reachable_points_regular_witness :
  Forall event_in_range
    [MouseButtonDown ButtonLeft 10 20; MouseButtonDown ButtonLeft (-3) 4000;
     KeyDown KeyRight; MouseButtonDown ButtonRight 0 0] /\
  exists s',
    run F32.hypot_ref
      [MouseButtonDown ButtonLeft 10 20; MouseButtonDown ButtonLeft (-3) 4000;
       KeyDown KeyRight; MouseButtonDown ButtonRight 0 0] initial_state = Some s' /\
    Forall regular_vertex (bezier_pts s') /\
    Forall (fun v => finite_point (position v)) (bezier_pts s').
Proof.
  assert (H : Forall event_in_range
                [MouseButtonDown ButtonLeft 10 20; MouseButtonDown ButtonLeft (-3) 4000;
                 KeyDown KeyRight; MouseButtonDown ButtonRight 0 0]).
  { repeat constructor; cbn; lia. }
  split; [exact H|]. exact (reachable_points_regular F32.hypot_ref _ H).
Defined.

(** X9. In every state that the main loop reaches with at least two control
    points, the spline on display starts exactly on the first control point
    and ends exactly on the last one (for sequences of fewer than [2^31]
    events with [int] coordinates). *)
Theorem reachable_spline_endpoints (hypot : float -> float -> float) (es : list event) :
  Forall event_in_range es -> Z.of_nat (length es) < 2 ^ 31 ->
  exists s',
    run hypot es initial_state = Some s' /\
    ((2 <= length (bezier_pts s'))%nat ->
     exists first_sample last_sample first_point last_point,
       head (bezier_spline s') = Some first_sample /\
       last (bezier_spline s') = Some last_sample /\
       head (bezier_pts s') = Some first_point /\
       last (bezier_pts s') = Some last_point /\
       position (base first_sample) = position first_point /\
       position (base last_sample) = position last_point).
Proof.
  intros Hes Hlen. destruct (run_is_Some hypot es initial_state) as [s' Hr].
  exists s'. split; [exact Hr|]. intros H2.
  pose proof (run_synced hypot es initial_state s' (initial_synced hypot) Hr) as Hs.
  destruct (synced_shape hypot s' Hs) as (Hl & Hsam & _).
  pose proof (run_regular hypot es initial_state s' Hes ltac:(constructor) Hr) as Hreg.
  pose proof (run_quality hypot es initial_state s' Hr ltac:(cbn; lia) ltac:(cbn; lia)) as Hq.
  pose proof (run_pts_length hypot es initial_state s' Hr) as Hp.
  cbn [initial_state quality bezier_pts length] in Hq, Hp.
  apply (samples_endpoints (bezier_pts s') (quality s') (bezier_spline s')); auto; try lia.
  assert (Z.of_nat (length (bezier_pts s')) <= Z.of_nat (length es)) by lia.
  change (2 ^ 31) with 2147483648 in Hlen. change (2 ^ 64) with 18446744073709551616.
  nia.
Qed.

Lemma reachable_spline_endpoints_witness :
  Forall event_in_range
    [MouseButtonDown ButtonLeft 10 20; MouseButtonDown ButtonLeft (-3) 4000;
     KeyDown KeyRight; MouseButtonDown ButtonLeft 7 7] /\
  Z.of_nat (length [MouseButtonDown ButtonLeft 10 20; MouseButtonDown ButtonLeft (-3) 4000;
                    KeyDown KeyRight; MouseButtonDown ButtonLeft 7 7]) < 2 ^ 31 /\
  exists s',
    run F32.hypot_ref
      [MouseButtonDown ButtonLeft 10 20; MouseButtonDown ButtonLeft (-3) 4000;
       KeyDown KeyRight; MouseButtonDown ButtonLeft 7 7] initial_state = Some s' /\
    ((2 <= length (bezier_pts s'))%nat ->
     exists first_sample last_sample first_point last_point,
       head (bezier_spline s') = Some first_sample /\
       last (bezier_spline s') = Some last_sample /\
       head (bezier_pts s') = Some first_point /\
       last (bezier_pts s') = Some last_point /\
       position (base first_sample) = position first_point /\
       position (base last_sample) = position last_point).
Proof.
  assert (H : Forall event_in_range
                [MouseButtonDown ButtonLeft 10 20; MouseButtonDown ButtonLeft (-3) 4000;
                 KeyDown KeyRight; MouseButtonDown ButtonLeft 7 7]).
  { repeat constructor; cbn; lia. }
  split; [exact H|]. split; [cbn; lia|].
  exact (reachable_spline_endpoints F32.hypot_ref _ H ltac:(cbn; lia)).
Defined.

(** ** Quality *)

(** X10. Raising the quality and lowering it again restores the quality,
    the control points and the spline of a rebuild; lowering and then
    raising does so only above the floor: at quality 1 the decrease does
    nothing and the increase that follows leaves quality 2. *)
Theorem quality_round_trip (hypot : float -> float -> float) (s : state) :
  (1 <= quality s -> quality s + 1 < 2 ^ 64 ->
   exists s1 s2,
     increase hypot s = Some s1 /\ decrease hypot s1 = Some s2 /\
     quality s1 = quality s + 1 /\ quality s2 = quality s /\
     bezier_pts s2 = bezier_pts s /\
     bezier_spline <$> update_bezier hypot s = Some (bezier_spline s2)) /\
  (1 < quality s < 2 ^ 64 ->
   exists s1 s2,
     decrease hypot s = Some s1 /\ increase hypot s1 = Some s2 /\
     quality s1 = quality s - 1 /\ quality s2 = quality s /\
     bezier_pts s2 = bezier_pts s /\
     bezier_spline <$> update_bezier hypot s = Some (bezier_spline s2)) /\
  (quality s = 1 ->
   exists s2,
     decrease hypot s = Some s /\ increase hypot s = Some s2 /\ quality s2 = 2).
Proof.
  unfold increase, decrease. cbn [handle_event]. split; [|split].
  - intros Hlo Hhi. rewrite (wrap_small (quality s + 1)) by lia.
    destruct (update_bezier_is_Some hypot (with_quality s (quality s + 1))) as [s1 H1].
    pose proof (update_bezier_quality hypot _ _ H1) as Q1. cbn [with_quality quality] in Q1.
    pose proof (update_bezier_pts hypot _ _ H1) as P1. cbn [with_quality bezier_pts] in P1.
    exists s1. rewrite H1, Q1.
    assert (E : (1 <? quality s + 1) = true) by (apply Z.ltb_lt; lia). rewrite E.
    replace (quality s + 1 - 1) with (quality s) by lia. rewrite wrap_small by lia.
    destruct (update_bezier_is_Some hypot (with_quality s1 (quality s))) as [s2 H2].
    pose proof (update_bezier_quality hypot _ _ H2) as Q2. cbn [with_quality quality] in Q2.
    pose proof (update_bezier_pts hypot _ _ H2) as P2. cbn [with_quality bezier_pts] in P2.
    exists s2. repeat (split; [first [reflexivity | assumption | congruence]|]).
    destruct (update_bezier_synced hypot _ _ H2) as (_ & _ & H3).
    rewrite <- H3. symmetry. apply update_bezier_spline_indep; congruence.
  - intros Hq.
    assert (E : (1 <? quality s) = true) by (apply Z.ltb_lt; lia). rewrite E.
    rewrite (wrap_small (quality s - 1)) by lia.
    destruct (update_bezier_is_Some hypot (with_quality s (quality s - 1))) as [s1 H1].
    pose proof (update_bezier_quality hypot _ _ H1) as Q1. cbn [with_quality quality] in Q1.
    pose proof (update_bezier_pts hypot _ _ H1) as P1. cbn [with_quality bezier_pts] in P1.
    exists s1. rewrite H1, Q1.
    replace (quality s - 1 + 1) with (quality s) by lia. rewrite wrap_small by lia.
    destruct (update_bezier_is_Some hypot (with_quality s1 (quality s))) as [s2 H2].
    pose proof (update_bezier_quality hypot _ _ H2) as Q2. cbn [with_quality quality] in Q2.
    pose proof (update_bezier_pts hypot _ _ H2) as P2. cbn [with_quality bezier_pts] in P2.
    exists s2. repeat (split; [first [reflexivity | assumption | congruence]|]).
    destruct (update_bezier_synced hypot _ _ H2) as (_ & _ & H3).
    rewrite <- H3. symmetry. apply update_bezier_spline_indep; congruence.
  - intros Hq. rewrite Hq. cbn [Z.ltb Z.compare Pos.compare Pos.compare_cont].
    change (wrap (1 + 1)) with 2.
    destruct (update_bezier_is_Some hypot (with_quality s 2)) as [s2 H2].
    pose proof (update_bezier_quality hypot _ _ H2) as Q2.
    exists s2. split; [reflexivity|]. split; [exact H2 | exact Q2].
Qed.

Lemma quality_round_trip_witness :
  1 <= quality initial_state /\ quality initial_state + 1 < 2 ^ 64 /\
  exists s1 s2,
    increase F32.hypot_ref initial_state = Some s1 /\
    decrease F32.hypot_ref s1 = Some s2 /\
    quality s1 = 5 /\ quality s2 = 4 /\
    bezier_pts s2 = bezier_pts initial_state /\
    bezier_spline <$> update_bezier F32.hypot_ref initial_state = Some (bezier_spline s2).
Proof.
  assert (H1 : 1 <= quality initial_state) by (cbn; lia).
  assert (H2 : quality initial_state + 1 < 2 ^ 64) by (cbn; lia).
  split; [exact H1|]. split; [exact H2|].
  exact (proj1 (quality_round_trip F32.hypot_ref initial_state) H1 H2).
Defined.

(** X12. [n] increases add [n] to the quality modulo [2^64] and leave the
    control points alone; when the sum wraps to 0 the spline on display is
    empty and [decrease] no longer does anything. *)
Theorem increase_modular (hypot : float -> float -> float) (n : nat) (s : state) :
  0 <= quality s < 2 ^ 64 ->
  exists s',
    run hypot (repeat (KeyDown KeyRight) n) s = Some s' /\
    quality s' = wrap (quality s + Z.of_nat n) /\
    bezier_pts s' = bezier_pts s /\
    (n <> 0%nat -> quality s' = 0 ->
     bezier_spline s' = [] /\ decrease hypot s' = Some s').
Proof.
  intros Hq. destruct (run_increase hypot n s Hq) as (s' & Hr & Hq' & Hp & Hs).
  exists s'. split; [exact Hr|]. split; [exact Hq'|]. split; [exact Hp|].
  intros Hn H0. split.
  - destruct (synced_shape hypot s' (Hs Hn)) as (Hl & _).
    rewrite H0 in Hl. unfold sample_count in Hl. rewrite Z.mul_0_r in Hl.
    destruct (bezier_spline s'); [reflexivity | discriminate].
  - unfold decrease. cbn [handle_event]. rewrite H0. reflexivity.
Qed.

Lemma increase_modular_witness :
  0 <= quality initial_state < 2 ^ 64 /\
  exists s',
    run F32.hypot_ref (repeat (KeyDown KeyRight) 3) initial_state = Some s' /\
    quality s' = 7 /\
    bezier_pts s' = bezier_pts initial_state.
Proof.
  assert (H : 0 <= quality initial_state < 2 ^ 64) by (cbn; lia).
  split; [exact H|].
  destruct (increase_modular F32.hypot_ref 3 initial_state H) as (s' & Hr & Hq & Hp & _).
  exists s'. split; [exact Hr|]. split; [exact Hq | exact Hp].
Defined.

(** ** Parameters *)

(** X11. Whenever a rebuild takes at least two samples, every parameter
    at which it calls the evaluator is a finite number between 0 and 1. *)
Theorem sample_parameters_in_unit_interval (s : state) (i : nat) :
  2 <= sample_count (bezier_pts s) (quality s) ->
  (i < Z.to_nat (sample_count (bezier_pts s) (quality s)))%nat ->
  F32.is_finite (sample_parameter (sample_count (bezier_pts s) (quality s)) i) = true /\
  F32.leb F32.zero (sample_parameter (sample_count (bezier_pts s) (quality s)) i) = true /\
  F32.leb (sample_parameter (sample_count (bezier_pts s) (quality s)) i) F32.one = true.
Proof.
  intros H. pose proof (sample_count_range (bezier_pts s) (quality s)) as R.
  apply sample_parameter_unit. lia.
Qed.

Lemma sample_parameters_in_unit_interval_witness :
  2 <= sample_count (bezier_pts (st [pt 0 0; pt 100 0; pt 100 100] 4))
                    (quality (st [pt 0 0; pt 100 0; pt 100 100] 4)) /\
  (7 < Z.to_nat (sample_count (bezier_pts (st [pt 0 0; pt 100 0; pt 100 100] 4))
                              (quality (st [pt 0 0; pt 100 0; pt 100 100] 4))))%nat /\
  F32.is_finite (sample_parameter 12 7) = true /\
  F32.leb F32.zero (sample_parameter 12 7) = true /\
  F32.leb (sample_parameter 12 7) F32.one = true.
Proof.
  assert (H1 : 2 <= sample_count (bezier_pts (st [pt 0 0; pt 100 0; pt 100 100] 4))
                                 (quality (st [pt 0 0; pt 100 0; pt 100 100] 4)))
    by (vm_compute; discriminate).
  assert (H2 : (7 < Z.to_nat (sample_count (bezier_pts (st [pt 0 0; pt 100 0; pt 100 100] 4))
                                (quality (st [pt 0 0; pt 100 0; pt 100 100] 4))))%nat)
    by (vm_compute; lia).
  split; [exact H1|]. split; [exact H2|].
  exact (sample_parameters_in_unit_interval (st [pt 0 0; pt 100 0; pt 100 100] 4) 7 H1 H2).
Defined.

(** ** The view matrix *)

(** X13. For a window of positive size every entry of the view matrix is a
    finite number, the horizontal scale is positive and the vertical scale
    negative (neither is zero); nothing guards a window of width or height
    0, for which the scale is an infinity. *)
Theorem view_matrix_finite (width height : Z) :
  (0 < width < 2 ^ 31 -> 0 < height < 2 ^ 31 ->
   Forall (fun f => F32.is_finite f = true) (view_matrix width height) /\
   (exists m e, view_matrix width height !! 0%nat = Some (S754_finite false m e)) /\
   (exists m e, view_matrix width height !! 5%nat = Some (S754_finite true m e))) /\
  view_matrix 0 height !! 0%nat = Some (S754_infinity false) /\
  view_matrix width 0 !! 5%nat = Some (S754_infinity true).
Proof.
  split; [|split; reflexivity].
  intros Hw Hh. unfold view_matrix.
  destruct (F32Facts.of_Z_normal width) as (mw & ew & -> & Bw & Dw & Ew); [lia|].
  destruct (F32Facts.of_Z_normal height) as (mh & eh & -> & Bh & Dh & Eh); [lia|].
  pose proof (F32Facts.digits2_pos_bounds mw) as Rw. rewrite Dw in Rw.
  pose proof (F32Facts.digits2_pos_bounds mh) as Rh. rewrite Dh in Rh.
  change (24 - 1) with 23 in Rw, Rh.
  change (F32.of_Z 2) with (S754_finite false 8388608 (-22)).
  change (F32.of_Z (-2)) with (S754_finite true 8388608 (-22)).
  destruct (F32Facts.div_normal false false 8388608 mw (-22) ew) as (m1 & e1 & -> & _);
    [split; reflexivity | exact Rw | lia |].
  destruct (F32Facts.div_normal true false 8388608 mh (-22) eh) as (m2 & e2 & -> & _);
    [split; reflexivity | exact Rh | lia |].
  split; [repeat constructor|]. split; cbn; eauto.
Qed.

Lemma view_matrix_finite_witness :
  0 < 800 < 2 ^ 31 /\ 0 < 600 < 2 ^ 31 /\
  Forall (fun f => F32.is_finite f = true) (view_matrix 800 600) /\
  (exists m e, view_matrix 800 600 !! 0%nat = Some (S754_finite false m e)) /\
  (exists m e, view_matrix 800 600 !! 5%nat = Some (S754_finite true m e)).
Proof.
  assert (H1 : 0 < 800 < 2 ^ 31) by (split; reflexivity).
  assert (H2 : 0 < 600 < 2 ^ 31) by (split; reflexivity).
  split; [exact H1|]. split; [exact H2|].
  exact (proj1 (view_matrix_finite 800 600) H1 H2).
Defined.

(** X14. Whenever a rebuild takes at least two samples, the parameter of
    the first one is exactly 0 and the parameter of the last one exactly 1:
    [0 / (N - 1)] and [(N - 1) / (N - 1)] in binary32, for every sample
    count that [size_t] holds. *)
Theorem sample_parameter_ends (s : state) :
  2 <= sample_count (bezier_pts s) (quality s) ->
  sample_parameter (sample_count (bezier_pts s) (quality s)) 0 = F32.zero /\
  sample_parameter (sample_count (bezier_pts s) (quality s))
    (Z.to_nat (sample_count (bezier_pts s) (quality s)) - 1) = F32.one.
Proof.
  intros H. pose proof (sample_count_range (bezier_pts s) (quality s)) as R.
  split; [apply sample_parameter_first | apply sample_parameter_last]; lia.
Qed.

Lemma sample_parameter_ends_witness :
  2 <= sample_count (bezier_pts (st [pt 0 0; pt 100 0; pt 100 100] 4))
                    (quality (st [pt 0 0; pt 100 0; pt 100 100] 4)) /\
  sample_parameter 12 0 = F32.zero /\ sample_parameter 12 11 = F32.one.
Proof.
  assert (H : 2 <= sample_count (bezier_pts (st [pt 0 0; pt 100 0; pt 100 100] 4))
                                (quality (st [pt 0 0; pt 100 0; pt 100 100] 4)))
    by (vm_compute; discriminate).
  split; [exact H|].
  exact (sample_parameter_ends (st [pt 0 0; pt 100 0; pt 100 100] 4) H).
Defined.
